(** * deforum/generate.py: frame preparation and prompt evaluation

    A shallow embedding of [load_img], [load_mask_latent], [prepare_mask]
    and [generate].  Python objects that the function mutates in place
    ([args], [root] and the request [root.p]) live in an explicit state;
    exceptions are values of [exn]; every call that leaves the module
    (the expression evaluator, the file system, the network, the random
    generator, the processing engine, standard output) is recorded as an
    event of a trace, in program order.  Pixel and array contents are the
    business of PIL, numpy and torch: an image or array carries its mode,
    geometry and the expression that produced its contents. *)

From Stdlib Require Import String Ascii List ZArith Bool Lia Floats.
Import ListNotations.
Open Scope string_scope.

(** ** Exceptions *)

Inductive exn : Type :=
| AssertionError (msg : string)
| ValueError (msg : string)
| NameError (name : string)
| AttributeError (type attr : string)
| UnboundLocalError (name : string)
| IndexError (msg : string)
| TypeError (msg : string)
| Exception (msg : string)
| CollaboratorError (who detail : string).

Definition is_assertion (e : exn) : bool :=
  match e with AssertionError _ => true | _ => false end.

(** ** Python strings *)

Module Str.

Definition nl : string := String "010"%char EmptyString.

(** [s.startswith(pre)] *)
Definition startswith (s pre : string) : bool := String.prefix pre s.

Fixpoint drop (n : nat) (s : string) : string :=
  match n, s with
  | S n', String _ s' => drop n' s'
  | _, _ => s
  end.

(** First occurrence of [sep] in [s], leftmost: the text before it and
    the text after it. *)
Fixpoint find (sep s : string) : option (string * string) :=
  if String.prefix sep s then Some (EmptyString, drop (String.length sep) s)
  else match s with
       | EmptyString => None
       | String c s' =>
           match find sep s' with
           | Some (a, b) => Some (String c a, b)
           | None => None
           end
       end.

(** [s.split(sep)] for a non-empty [sep] (Python rejects an empty
    separator; the module only ever passes a literal).  Each round cuts at
    the leftmost occurrence and goes on after it; a round consumes at least
    one character, so [length s] rounds are always enough
    (see [split_fuel_enough]). *)
Fixpoint split_fuel (n : nat) (sep s : string) : list string :=
  match n with
  | O => [s]
  | S n' =>
      match find sep s with
      | None => [s]
      | Some (a, b) => a :: split_fuel n' sep b
      end
  end.

Definition split (sep s : string) : list string :=
  split_fuel (String.length s) sep s.

(** Cut at the first backtick. *)
Fixpoint until_tick (s : string) : option (string * string) :=
  match s with
  | EmptyString => None
  | String c s' =>
      if Ascii.eqb c "`"%char then Some (EmptyString, s')
      else match until_tick s' with
           | Some (a, b) => Some (String c a, b)
           | None => None
           end
  end.

Fixpoint has_tick (s : string) : bool :=
  match s with
  | EmptyString => false
  | String c s' => Ascii.eqb c "`"%char || has_tick s'
  end.

(** The pattern of lines 97-101 read by hand: a match runs from the first
    backtick to the next one, and there is none when the first backtick has
    no successor.  Returns the text before the match, the match and the
    text after it.  [Re.math_search] below runs the pattern itself;
    the two agree ([ReFacts.math_search_ticks]). *)
Definition tick_search (s : string) : option (string * string * string) :=
  match until_tick s with
  | None => None
  | Some (pre, r) =>
      match until_tick r with
      | None => None
      | Some (body, post) => Some (pre, "`" ++ body ++ "`", post)
      end
  end.

(** [s[:n]] *)
Fixpoint take (n : nat) (s : string) : string :=
  match n, s with
  | S n', String c s' => String c (take n' s')
  | _, _ => EmptyString
  end.

End Str.

(** ** Regular expressions

    The fragment of Python's [re] syntax that [math_parser] is written in,
    with the backtracking matcher's order of preference: a lazy star tries
    the rest of the pattern first and takes one more character only when
    that fails. *)

Module Re.

Inductive t : Type :=
| Chr (c : ascii)                    (* a literal character *)
| OneOf (member : ascii -> bool)     (* a character set [...] *)
| LazyStar (member : ascii -> bool)  (* [...]*? on a character set *)
| Cat (a b : t)                      (* a followed by b *)
| Group (a : t)                      (* ( a ) *)
| Named (name : string) (a : t).     (* (?P<name> a ) *)

Fixpoint lazy_star (member : ascii -> bool) (k : string -> option string)
    (s : string) : option string :=
  match k s with
  | Some rest => Some rest
  | None =>
      match s with
      | String c s' => if member c then lazy_star member k s' else None
      | EmptyString => None
      end
  end.

(** [run r k s]: match [r] at the start of [s], then [k] on what is left;
    the first success in order of preference. *)
Fixpoint run (r : t) (k : string -> option string) (s : string)
  : option string :=
  match r with
  | Chr c =>
      match s with
      | String c' s' => if Ascii.eqb c c' then k s' else None
      | EmptyString => None
      end
  | OneOf member =>
      match s with
      | String c' s' => if member c' then k s' else None
      | EmptyString => None
      end
  | LazyStar member => lazy_star member k s
  | Cat a b => run a (run b k) s
  | Group a => run a k s
  | Named _ a => run a k s
  end.

(** [pattern.match(s)]: what follows the match, when there is one at the
    very start of [s]. *)
Definition match_start (r : t) (s : string) : option string :=
  run r (fun rest => Some rest) s.

(** [pattern.search(s)]: the leftmost match, as the text before it, the
    matched text and the text after it. *)
Fixpoint search (r : t) (s : string) : option (string * string * string) :=
  match match_start r s with
  | Some rest =>
      Some (EmptyString, Str.take (String.length s - String.length rest) s, rest)
  | None =>
      match s with
      | String c s' =>
          match search r s' with
          | Some (pre, m, post) => Some (String c pre, m, post)
          | None => None
          end
      | EmptyString => None
      end
  end.

(** [\s] on the ASCII range: space, tab, newline, return, form feed,
    vertical tab. *)
Definition is_space (c : ascii) : bool :=
  match nat_of_ascii c with
  | 32 | 9 | 10 | 13 | 12 | 11 => true
  | _ => false
  end.

(** Lines 97-101 under [re.VERBOSE] (white space and the comment are not
    part of the pattern): [(?P<weight>(`[\S\s]*?`))]. *)
Definition math_parser : t :=
  Named "weight"
    (Group
       (Cat (Chr "`")
            (Cat (LazyStar (fun c => negb (is_space c) || is_space c))
                 (Chr "`")))).

Definition math_search (s : string) : option (string * string * string) :=
  search math_parser s.

End Re.

(** ** Arrays and images

    The contents of an array or image are not computed here (resampling,
    colour conversion and tensor arithmetic belong to PIL, numpy, torch and
    torchvision); a value records where its contents came from and which
    operations were applied on the way, so that sources, order of operations,
    modes and geometry can all be read off. *)

Inductive dtype : Type := f16 | f32 | f64 | u8.

Inductive cells : Type :=
| SampleData (id : nat)        (* the values of a sample tensor *)
| Rand (draw : nat)            (* np.random.rand, by draw number *)
| Times255 (c : cells)         (* 255. * a *)
| Rearranged (c : cells)       (* rearrange(a, 'c h w -> h w c') *)
| AsType (d : dtype) (c : cells).

Record ndarray : Type := mkArray
  { a_shape : list nat; a_dtype : dtype; a_cells : cells }.

(** [args.init_sample]: a torch tensor when the caller supplies one; line
    141 rebinds the attribute to a numpy array. *)
Inductive sample : Type :=
| Tensor (t : ndarray)
| Array (a : ndarray).

Inductive mode : Type := L | LA | P | RGB | RGBA | CMYK.

Definition bands (m : mode) : nat :=
  match m with
  | L | P => 1
  | LA => 2
  | RGB => 3
  | RGBA | CMYK => 4
  end.

Inductive pix : Type :=
| File (path : string)                 (* Image.open(path) *)
| Url (url : string)                   (* Image.open(requests.get(url, stream=True).raw) *)
| FromArray (c : cells)                (* Image.fromarray *)
| Convert (m : mode) (p : pix)         (* image.convert(m) *)
| Resize (w h : nat) (p : pix)         (* image.resize((w, h), resample=Image.LANCZOS) *)
| Band (i : nat) (p : pix)             (* the i-th band of Image.Image.split *)
| Brightness (factor : float) (p : pix) (* TF.adjust_brightness *)
| Contrast (factor : float) (p : pix)  (* TF.adjust_contrast *)
| Inverted (p : pix).                  (* ImageOps.invert *)

(** A PIL image: [im_size] is (width, height), as PIL's [size].
    What PIL does with a dimension of zero is not modelled: pictures and
    requests have positive dimensions. *)
Record Image : Type := mkImage
  { im_mode : mode; im_size : nat * nat; im_pix : pix }.

Definition im_width (im : Image) : nat := fst (im_size im).
Definition im_height (im : Image) : nat := snd (im_size im).

(** The leaves of an image's history: where its pixels ultimately come from. *)
Inductive origin : Type :=
| FromSample (id : nat)
| FromFile (path : string)
| FromUrl (url : string)
| FromNoise (draw : nat).

Fixpoint cells_origin (c : cells) : origin :=
  match c with
  | SampleData id => FromSample id
  | Rand k => FromNoise k
  | Times255 c | Rearranged c | AsType _ c => cells_origin c
  end.

Fixpoint pix_origin (p : pix) : origin :=
  match p with
  | File path => FromFile path
  | Url url => FromUrl url
  | FromArray c => cells_origin c
  | Convert _ p | Resize _ _ p | Band _ p
  | Brightness _ p | Contrast _ p | Inverted p => pix_origin p
  end.

Module PIL.

Definition convert (m : mode) (im : Image) : Image :=
  mkImage m (im_size im) (Convert m (im_pix im)).

Definition resize (size : nat * nat) (im : Image) : Image :=
  mkImage (im_mode im) size (Resize (fst size) (snd size) (im_pix im)).

(** [Image.Image.split(image)]: one single-band image per band. *)
Definition split (im : Image) : list Image :=
  map (fun i => mkImage L (im_size im) (Band i (im_pix im)))
      (seq 0 (bands (im_mode im))).

Definition invert (im : Image) : Image :=
  mkImage (im_mode im) (im_size im) (Inverted (im_pix im)).

(** [Image.fromarray] on an 8-bit array: the array is indexed
    (row, column, band), so its first axis is the image HEIGHT and its
    second axis the image WIDTH; the mode follows the number of bands. *)
Definition fromarray (a : ndarray) : exn + Image :=
  match a_dtype a, a_shape a with
  | u8, [h; w] => inr (mkImage L (w, h) (FromArray (a_cells a)))
  | u8, [h; w; 2] => inr (mkImage LA (w, h) (FromArray (a_cells a)))
  | u8, [h; w; 3] => inr (mkImage RGB (w, h) (FromArray (a_cells a)))
  | u8, [h; w; 4] => inr (mkImage RGBA (w, h) (FromArray (a_cells a)))
  | _, _ => inl (TypeError "Cannot handle this data type")
  end.

End PIL.

Module TF.

Definition adjust_brightness (im : Image) (factor : float) : Image :=
  mkImage (im_mode im) (im_size im) (Brightness factor (im_pix im)).

Definition adjust_contrast (im : Image) (factor : float) : Image :=
  mkImage (im_mode im) (im_size im) (Contrast factor (im_pix im)).

End TF.

Module Np.

(** [255. * a] *)
Definition times255 (a : ndarray) : ndarray :=
  mkArray (a_shape a) (a_dtype a) (Times255 (a_cells a)).

(** [a.astype(d)] *)
Definition astype (d : dtype) (a : ndarray) : ndarray :=
  mkArray (a_shape a) d (AsType d (a_cells a)).

(** [rearrange(a, 'c h w -> h w c')]: exactly three axes are required. *)
Definition rearrange_chw_hwc (a : ndarray) : exn + ndarray :=
  match a_shape a with
  | [c; h; w] => inr (mkArray [h; w; c] (a_dtype a) (Rearranged (a_cells a)))
  | _ => inl (CollaboratorError "einops" "wrong number of axes for 'c h w'")
  end.

(** [np.random.rand(d0, d1, d2)]: a float64 array of that shape. *)
Definition rand (draw : nat) (shape : list nat) : ndarray :=
  mkArray shape f64 (Rand draw).

End Np.

(** ** Python values that reach dynamically typed positions *)

Inductive pyval : Type :=
| VNone
| VInt (z : Z)
| VFloat (x : float)
| VStr (s : string)
| VTuple (items : list Z)      (* a tuple or list of ints, such as a shape *)
| VImage (im : Image).

Definition mode_name (m : mode) : string :=
  match m with
  | L => "L" | LA => "LA" | P => "P"
  | RGB => "RGB" | RGBA => "RGBA" | CMYK => "CMYK"
  end.

(** Attribute read on a PIL image.  The class exposes [mode], [size],
    [width] and [height] (besides methods); any other name raises. *)
Definition Image_getattr (im : Image) (name : string) : exn + pyval :=
  if String.eqb name "mode" then inr (VStr (mode_name (im_mode im)))
  else if String.eqb name "size" then
    inr (VTuple [Z.of_nat (im_width im); Z.of_nat (im_height im)])
  else if String.eqb name "width" then inr (VInt (Z.of_nat (im_width im)))
  else if String.eqb name "height" then inr (VInt (Z.of_nat (im_height im)))
  else inl (AttributeError "Image" name).

(** Attribute read on a local that holds an image or [None]. *)
Definition getattr (v : option Image) (name : string) : exn + pyval :=
  match v with
  | Some im => Image_getattr im name
  | None => inl (AttributeError "NoneType" name)
  end.

(** [v[-k]] for [k >= 1]. *)
Definition subscript_from_end (v : pyval) (k : nat) : exn + Z :=
  match v with
  | VTuple items =>
      match nth_error (rev items) (k - 1) with
      | Some x => inr x
      | None => inl (IndexError "tuple index out of range")
      end
  | _ => inl (TypeError "object is not subscriptable")
  end.

(** An int used as a pixel dimension. *)
Definition as_dimension (z : Z) : exn + nat :=
  if (0 <=? z)%Z then inr (Z.to_nat z)
  else inl (ValueError "height and width must be > 0").

(** Names bound at module level: the imports of lines 1-23 and the four
    function definitions.  [from PIL import Image, ImageOps] binds [Image]
    and [ImageOps]; it does not bind [PIL]. *)
Definition module_globals : list string :=
  [ "torch"; "Image"; "ImageOps"; "requests"; "np"; "TF"; "seed_everything";
    "os"; "PLMSSampler"; "DDIMSampler"; "CompVisDenoiser"; "autocast";
    "nullcontext"; "rearrange"; "get_uc_and_c"; "parse_weight"; "sampler_fn";
    "gaussian_filter"; "SamplerCallback"; "processing"; "process_images";
    "add_noise"; "load_img"; "load_mask_latent"; "prepare_mask"; "generate" ].

Definition global_bound (name : string) : bool :=
  existsb (String.eqb name) module_globals.

(** ** The objects [generate] reads and writes *)

(** [args]: the caller's parameter set.  [strength] and [init_sample] are
    assigned by [generate] (lines 134 and 141).  [W] and [H] are array
    dimensions (line 150) and hence naturals; [sampler] is taken as the
    integer that [int(args.sampler)] yields (line 116); the real-valued
    parameters are binary64 floats, with Python's comparisons. *)
Module Args.
Record t : Type := mk
  { prompt : option string;
    outdir : string;
    n_samples : Z;
    W : nat;
    H : nat;
    steps : Z;
    seed : Z;
    save_samples : bool;
    make_grid : bool;
    sampler : Z;
    mask_overlay_blur : float;
    scale : float;
    use_init : bool;
    strength : float;
    strength_0_no_init : bool;
    init_sample : option sample;
    init_image : option string;
    use_alpha_as_mask : bool;
    use_mask : bool;
    mask_file : option string;
    mask_contrast_adjust : float;
    mask_brightness_adjust : float;
    invert_mask : bool;
    overlay_mask : bool }.

Definition set_strength (x : float) (a : t) : t :=
  mk (prompt a) (outdir a) (n_samples a) (W a) (H a) (steps a) (seed a)
     (save_samples a) (make_grid a) (sampler a) (mask_overlay_blur a)
     (scale a) (use_init a) x (strength_0_no_init a) (init_sample a)
     (init_image a) (use_alpha_as_mask a) (use_mask a) (mask_file a)
     (mask_contrast_adjust a) (mask_brightness_adjust a) (invert_mask a)
     (overlay_mask a).

Definition set_init_sample (x : option sample) (a : t) : t :=
  mk (prompt a) (outdir a) (n_samples a) (W a) (H a) (steps a) (seed a)
     (save_samples a) (make_grid a) (sampler a) (mask_overlay_blur a)
     (scale a) (use_init a) (strength a) (strength_0_no_init a) x
     (init_image a) (use_alpha_as_mask a) (use_mask a) (mask_file a)
     (mask_contrast_adjust a) (mask_brightness_adjust a) (invert_mask a)
     (overlay_mask a).
End Args.

(** A Python dict with string keys, in insertion order. *)
Fixpoint dict_set {V : Type} (k : string) (v : V) (d : list (string * V))
  : list (string * V) :=
  match d with
  | [] => [(k, v)]
  | (k', v') :: d' =>
      if String.eqb k k' then (k, v) :: d' else (k', v') :: dict_set k v d'
  end.

(** [root.p]: the host's request object, restricted to the attributes
    [generate] assigns. *)
Module P.
Record t : Type := mk
  { batch_size : Z;
    width : nat;
    height : nat;
    steps : Z;
    seed : Z;
    do_not_save_samples : bool;
    do_not_save_grid : bool;
    sampler_index : Z;
    mask_blur : float;
    extra_generation_params : list (string * float);
    n_iter : Z;
    cfg_scale : float;
    outpath_samples : string;
    outpath_grids : string;
    prompt : string;
    negative_prompt : string;
    denoising_strength : float;
    init_images : list (option Image);
    mask : option Image }.

Definition set_prompts (pos neg : string) (p : t) : t :=
  mk (batch_size p) (width p) (height p) (steps p) (seed p)
     (do_not_save_samples p) (do_not_save_grid p) (sampler_index p)
     (mask_blur p) (extra_generation_params p) (n_iter p) (cfg_scale p)
     (outpath_samples p) (outpath_grids p) pos neg
     (denoising_strength p) (init_images p) (mask p).

Definition set_denoising_strength (x : float) (p : t) : t :=
  mk (batch_size p) (width p) (height p) (steps p) (seed p)
     (do_not_save_samples p) (do_not_save_grid p) (sampler_index p)
     (mask_blur p) (extra_generation_params p) (n_iter p) (cfg_scale p)
     (outpath_samples p) (outpath_grids p) (prompt p) (negative_prompt p)
     x (init_images p) (mask p).

Definition set_init_images (x : list (option Image)) (p : t) : t :=
  mk (batch_size p) (width p) (height p) (steps p) (seed p)
     (do_not_save_samples p) (do_not_save_grid p) (sampler_index p)
     (mask_blur p) (extra_generation_params p) (n_iter p) (cfg_scale p)
     (outpath_samples p) (outpath_grids p) (prompt p) (negative_prompt p)
     (denoising_strength p) x (mask p).

Definition set_mask (x : option Image) (p : t) : t :=
  mk (batch_size p) (width p) (height p) (steps p) (seed p)
     (do_not_save_samples p) (do_not_save_grid p) (sampler_index p)
     (mask_blur p) (extra_generation_params p) (n_iter p) (cfg_scale p)
     (outpath_samples p) (outpath_grids p) (prompt p) (negative_prompt p)
     (denoising_strength p) (init_images p) x.
End P.

(** What the processing engine returns. *)
Module Processed.
Record t : Type := mk
  { images : list Image; seed : Z; info : string }.
End Processed.

(** [root]: the record shared by all frames of a run.  The three
    first-result attributes hold [None] until assigned. *)
Module Root.
Record t : Type := mk
  { p : P.t;
    outpath_samples : string;
    initial_seed : option Z;
    initial_info : option string;
    first_frame : option Image }.

Definition set_p (x : P.t) (r : t) : t :=
  mk x (outpath_samples r) (initial_seed r) (initial_info r) (first_frame r).

Definition set_initial (sd : Z) (inf : string) (r : t) : t :=
  mk (p r) (outpath_samples r) (Some sd) (Some inf) (first_frame r).

Definition set_first_frame (im : Image) (r : t) : t :=
  mk (p r) (outpath_samples r) (initial_seed r) (initial_info r) (Some im).
End Root.

(** ** Events, state and the monad of the module's code *)

Inductive Event : Type :=
| EvEval (matched : string) (frame : Z)   (* parse_weight(m, frame) *)
| EvMakedirs (path : string)              (* os.makedirs(path, exist_ok=True) *)
| EvPrint (line : string)                 (* print(line) *)
| EvOpen (path : string)                  (* Image.open(path) *)
| EvGet (url : string)                    (* requests.get(url, stream=True) *)
| EvRand (shape : list nat)               (* np.random.rand(...) *)
| EvDispatch (p : P.t).                   (* processing.process_images(p) *)

Record State : Type := mkState
  { st_args : Args.t;
    st_root : Root.t;
    st_trace : list Event;   (* oldest first *)
    st_draws : nat }.        (* random arrays drawn so far *)

Definition M (A : Type) : Type := State -> (exn + A) * State.

Definition ret {A : Type} (a : A) : M A := fun st => (inr a, st).

Definition raise {A : Type} (e : exn) : M A := fun st => (inl e, st).

Definition bind {A B : Type} (m : M A) (k : A -> M B) : M B :=
  fun st =>
    match m st with
    | (inr a, st') => k a st'
    | (inl e, st') => (inl e, st')
    end.

Declare Scope py_scope.
Delimit Scope py_scope with py.
Notation "x <- c1 ;; c2" := (bind c1 (fun x => c2))
  (at level 61, c1 at next level, right associativity) : py_scope.
Notation "' pat <- c1 ;; c2" := (bind c1 (fun x => match x with pat => c2 end))
  (at level 61, pat pattern, c1 at next level, right associativity) : py_scope.
Notation "c1 ;; c2" := (bind c1 (fun _ => c2))
  (at level 61, right associativity) : py_scope.
Open Scope py_scope.

(** A pure, possibly raising, computation. *)
Definition lift {A : Type} (r : exn + A) : M A := fun st => (r, st).

Definition get_args : M Args.t := fun st => (inr (st_args st), st).
Definition get_root : M Root.t := fun st => (inr (st_root st), st).

Definition set_args (f : Args.t -> Args.t) : M unit :=
  fun st => (inr tt, mkState (f (st_args st)) (st_root st) (st_trace st) (st_draws st)).

Definition set_root (f : Root.t -> Root.t) : M unit :=
  fun st => (inr tt, mkState (st_args st) (f (st_root st)) (st_trace st) (st_draws st)).

(** [p] is [root.p] itself (line 106), so an assignment to an attribute of
    [p] is an assignment inside [root]. *)
Definition set_p (f : P.t -> P.t) : M unit :=
  set_root (fun r => Root.set_p (f (Root.p r)) r).

Definition emit (e : Event) : M unit :=
  fun st => (inr tt, mkState (st_args st) (st_root st) (st_trace st ++ [e]) (st_draws st)).

Definition next_draw : M nat :=
  fun st => (inr (st_draws st),
             mkState (st_args st) (st_root st) (st_trace st) (S (st_draws st))).

Definition print (line : string) : M unit := emit (EvPrint line).

(** [assert cond, msg] *)
Definition assert_ (cond : bool) (msg : string) : M unit :=
  if cond then ret tt else raise (AssertionError msg).

(** Reading a module-level name. *)
Definition global (name : string) : M unit :=
  if global_bound name then ret tt else raise (NameError name).

(** The answer of a collaborator: a failure is an exception of its own. *)
Definition answer {A : Type} (who : string) (r : string + A) : M A :=
  match r with
  | inr a => ret a
  | inl detail => raise (CollaboratorError who detail)
  end.

Definition get_trace : M (list Event) := fun st => (inr (st_trace st), st).

(** Tuple unpacking: [a, b = xs] and [a, b, c, d = xs]. *)
Definition unpack2 {A : Type} (xs : list A) : exn + (A * A) :=
  match xs with
  | [a; b] => inr (a, b)
  | _ :: _ :: _ :: _ => inl (ValueError "too many values to unpack (expected 2)")
  | _ => inl (ValueError "not enough values to unpack (expected 2)")
  end.

Definition unpack4 {A : Type} (xs : list A) : exn + (A * A * A * A) :=
  match xs with
  | [a; b; c; d] => inr (a, b, c, d)
  | _ :: _ :: _ :: _ :: _ :: _ =>
      inl (ValueError "too many values to unpack (expected 4)")
  | _ => inl (ValueError "not enough values to unpack (expected 4)")
  end.

(** [xs[0]] *)
Definition first {A : Type} (xs : list A) : exn + A :=
  match xs with
  | x :: _ => inr x
  | [] => inl (IndexError "list index out of range")
  end.

Definition is_none {A : Type} (o : option A) : bool :=
  match o with None => true | Some _ => false end.

(** [x != y] on floats *)
Definition ne (x y : float) : bool := negb (PrimFloat.eqb x y).

(** [re.sub(math_parser, repl, s)]: replace the leftmost match, go on
    after it.  A match is at least two characters long, so [length s]
    rounds are always enough. *)
Fixpoint re_sub_fuel (n : nat) (repl : string -> M string) (s : string)
  : M string :=
  match n with
  | O => ret s
  | S n' =>
      match Re.math_search s with
      | None => ret s
      | Some (pre, m, post) =>
          r <- repl m ;;
          rest <- re_sub_fuel n' repl post ;;
          ret (pre ++ r ++ rest)
      end
  end.

Definition re_sub (repl : string -> M string) (s : string) : M string :=
  re_sub_fuel (String.length s) repl s.

Definition msg_no_mask : string :=
  "use_mask==True: An mask image is required for a mask. Please enter a mask_file or use an init image with an alpha channel".
Definition msg_no_init : string :=
  "use_mask==True: use_init is required for a mask".
Definition msg_overlay : string :=
  "Need an init image when use_mask == True and overlay_mask == True".
Definition notice1 : string :=
  Str.nl ++ "No init image, but strength > 0. Strength has been auto set to 0, since use_init is False.".
Definition notice2 : string :=
  "If you want to force strength > 0 with no init, please set strength_0_no_init to False." ++ Str.nl.

Section Generate.

(** *** Collaborators *)

(** The expression evaluator of [.prompt], applied to the matched text
    (group "weight", delimiters included) and the frame index, and
    [str] on what it returns. *)
Variable weight : Type.
Variable parse_weight : string -> Z -> string + weight.
Variable str : weight -> string.

(** The codec on a local path and on the body of an HTTP response: mode
    and size of the decoded picture, or a failure. *)
Variable open_file : string -> string + (mode * (nat * nat)).
Variable http_get : string -> string + (mode * (nat * nat)).

(** The processing engine; its answer may depend on all that happened
    before. *)
Variable process_images : list Event -> P.t -> string + Processed.t.

Definition Image_open (path : string) : M Image :=
  emit (EvOpen path) ;;
  '(m, size) <- answer "Image.open" (open_file path) ;;
  ret (mkImage m size (File path)).

Definition Image_open_url (url : string) : M Image :=
  emit (EvGet url) ;;
  '(m, size) <- answer "requests.get" (http_get url) ;;
  ret (mkImage m size (Url url)).

Definition is_url (path : string) : bool :=
  Str.startswith path "http://" || Str.startswith path "https://".

(** Lines 28-49. *)
Definition load_img (path : string) (shape : nat * nat)
    (use_alpha_as_mask : bool) : M (Image * option Image) :=
  image <- (if is_url path then Image_open_url path else Image_open path) ;;
  let image :=
    if use_alpha_as_mask then PIL.convert RGBA image
    else PIL.convert RGB image in
  let image := PIL.resize shape image in
  if use_alpha_as_mask then
    '(red, green, blue, alpha) <- lift (unpack4 (PIL.split image)) ;;
    let mask_image := PIL.convert L alpha in
    let image := PIL.convert RGB image in
    ret (image, Some mask_image)
  else ret (image, None).

(** Lines 51-68. *)
Definition load_mask_latent (mask_input : pyval) (shape : pyval) : M Image :=
  mask_image <-
    match mask_input with
    | VStr path =>
        im <- (if is_url path then Image_open_url path else Image_open path) ;;
        ret (PIL.convert RGBA im)
    | VImage im => ret im
    | _ => raise (Exception "mask_input must be a PIL image or a file name")
    end ;;
  w <- lift (subscript_from_end shape 1) ;;
  h <- lift (subscript_from_end shape 2) ;;
  w <- lift (as_dimension w) ;;
  h <- lift (as_dimension h) ;;
  let mask := PIL.resize (w, h) mask_image in
  let mask := PIL.convert L mask in
  ret mask.

(** Lines 70-89.  Line 87 spells the inversion [PIL.ImageOps.invert]: the
    name [PIL] is looked up among the module's globals first.  (All other
    module-level names the four functions read are in [module_globals].) *)
Definition prepare_mask (mask_input : pyval) (mask_shape : pyval)
    (mask_brightness_adjust mask_contrast_adjust : float)
    (invert_mask : bool) : M Image :=
  mask <- load_mask_latent mask_input mask_shape ;;
  let mask :=
    if ne mask_brightness_adjust 1%float
    then TF.adjust_brightness mask mask_brightness_adjust else mask in
  let mask :=
    if ne mask_contrast_adjust 1%float
    then TF.adjust_contrast mask mask_contrast_adjust else mask in
  if invert_mask then
    global "PIL" ;;
    ret (PIL.invert mask)
  else ret mask.

(** Line 103: the replacement callback. *)
Definition math_repl (frame : Z) (m : string) : M string :=
  emit (EvEval m frame) ;;
  w <- answer "parse_weight" (parse_weight m frame) ;;
  ret (str w).

(** Lines 106-122. *)
Definition configure : M unit :=
  args <- get_args ;;
  root <- get_root ;;
  emit (EvMakedirs (Args.outdir args)) ;;
  set_p (fun p =>
    P.mk (Args.n_samples args)
         (Args.W args)
         (Args.H args)
         (Args.steps args)
         (Args.seed args)
         (negb (Args.save_samples args))
         (negb (Args.make_grid args))
         (Args.sampler args)
         (Args.mask_overlay_blur args)
         (dict_set "Mask blur" (Args.mask_overlay_blur args)
                   (P.extra_generation_params p))
         1%Z
         (Args.scale args)
         (Root.outpath_samples root)
         (Root.outpath_samples root)
         (P.prompt p) (P.negative_prompt p) (P.denoising_strength p)
         (P.init_images p) (P.mask p)).

(** Lines 124-129. *)
Definition split_prompt (parsed_prompt : string) : M unit :=
  let prompt_split := Str.split "--neg" parsed_prompt in
  if Nat.ltb 1 (List.length prompt_split) then
    '(pos, neg) <- lift (unpack2 (Str.split "--neg" parsed_prompt)) ;;
    set_p (P.set_prompts pos neg)
  else
    pos <- lift (first prompt_split) ;;
    set_p (P.set_prompts pos EmptyString).

(** Lines 131-135. *)
Definition strength_policy : M unit :=
  args <- get_args ;;
  (if negb (Args.use_init args) && PrimFloat.ltb 0%float (Args.strength args)
      && Args.strength_0_no_init args
   then
     print notice1 ;;
     print notice2 ;;
     set_args (Args.set_strength 0%float)
   else ret tt) ;;
  args <- get_args ;;
  set_p (P.set_denoising_strength (Args.strength args)).

(** [args.init_sample.cpu().numpy()] *)
Definition cpu_numpy (s : sample) : exn + ndarray :=
  match s with
  | Tensor t => inr t
  | Array _ => inl (AttributeError "numpy.ndarray" "cpu")
  end.

(** Lines 136-151: the locals [mask_image] and [init_image] start as
    [None]; returns (init_image, mask_image). *)
Definition resolve_init : M (option Image * option Image) :=
  let mask_image : option Image := None in
  let init_image : option Image := None in
  args <- get_args ;;
  match Args.init_sample args with
  | Some s =>
      a <- lift (cpu_numpy s) ;;
      a <- lift (Np.rearrange_chw_hwc a) ;;
      let a := Np.times255 a in
      set_args (Args.set_init_sample (Some (Array a))) ;;
      im <- lift (PIL.fromarray (Np.astype u8 a)) ;;
      ret (Some im, mask_image)
  | None =>
      if Args.use_init args
         && match Args.init_image args with
            | None => false
            | Some path => negb (String.eqb path EmptyString)
            end
      then
        match Args.init_image args with
        | Some path =>
            '(im, mask_image) <-
               load_img path (Args.W args, Args.H args)
                        (Args.use_alpha_as_mask args) ;;
            ret (Some im, mask_image)
        | None => ret (init_image, mask_image)
        end
      else
        k <- next_draw ;;
        emit (EvRand [Args.W args; Args.H args; 3]) ;;
        let a := Np.times255 (Np.rand k [Args.W args; Args.H args; 3]) in
        im <- lift (PIL.fromarray (Np.astype u8 a)) ;;
        ret (Some (PIL.convert RGB im), mask_image)
  end.

(** Lines 159-163: the call of [prepare_mask], once its first two
    arguments have been evaluated.  [prepare_mask] takes the brightness
    factor third and the contrast factor fourth (line 70). *)
Definition call_prepare_mask (args : Args.t) (mask_input shape : pyval)
  : M Image :=
  prepare_mask mask_input shape
               (Args.mask_contrast_adjust args)
               (Args.mask_brightness_adjust args)
               (Args.invert_mask args).

(** Lines 154-170. *)
Definition mask_functions (init_image mask_image : option Image)
  : M (option Image) :=
  args <- get_args ;;
  if Args.use_mask args then
    assert_ (negb (is_none (Args.mask_file args))
             || negb (is_none mask_image)) msg_no_mask ;;
    assert_ (Args.use_init args) msg_no_init ;;
    let mask_input :=
      match mask_image with
      | None =>
          match Args.mask_file args with
          | Some path => VStr path
          | None => VNone
          end
      | Some im => VImage im
      end in
    shape <- lift (getattr init_image "shape") ;;
    mask <- call_prepare_mask args mask_input shape ;;
    ret (Some mask)
  else ret None.

(** Line 172. *)
Definition overlay_check (init_image : option Image) : M unit :=
  args <- get_args ;;
  assert_ (negb ((Args.use_mask args && Args.overlay_mask args)
                 && (is_none (Args.init_sample args) && is_none init_image)))
          msg_overlay.

(** Line 177. *)
Definition dispatch : M Processed.t :=
  root <- get_root ;;
  emit (EvDispatch (Root.p root)) ;;
  history <- get_trace ;;
  answer "process_images" (process_images history (Root.p root)).

(** Lines 179-184. *)
Definition record_first (processed : Processed.t) : M unit :=
  root <- get_root ;;
  (if is_none (Root.initial_info root) then
     set_root (Root.set_initial (Processed.seed processed)
                                (Processed.info processed))
   else ret tt) ;;
  root <- get_root ;;
  (if is_none (Root.first_frame root) then
     im <- lift (first (Processed.images processed)) ;;
     set_root (Root.set_first_frame im)
   else ret tt).

(** Lines 186-195.  In the [return_sample] branch the local [image] is
    read (line 187) before anything was assigned to it. *)
Definition results (return_sample : bool) (processed : Processed.t)
  : M (list Image) :=
  if return_sample then raise (UnboundLocalError "image")
  else
    im <- lift (first (Processed.images processed)) ;;
    ret [im].

(** Lines 93-135: the prompt is evaluated and split, and the scalar
    attributes of the request are assigned. *)
Definition setup (frame : Z) : M unit :=
  args <- get_args ;;
  assert_ (negb (is_none (Args.prompt args))) EmptyString ;;
  parsed_prompt <-
    re_sub (math_repl frame)
           (match Args.prompt args with Some s => s | None => EmptyString end) ;;
  configure ;;
  split_prompt parsed_prompt ;;
  strength_policy.

(** Lines 91-195; [args] and [root] are the objects of the state. *)
Definition generate (frame : Z) (return_sample : bool) : M (list Image) :=
  setup frame ;;
  '(init_image, mask_image) <- resolve_init ;;
  mask <- mask_functions init_image mask_image ;;
  overlay_check init_image ;;
  set_p (P.set_init_images [init_image]) ;;
  set_p (P.set_mask mask) ;;
  processed <- dispatch ;;
  record_first processed ;;
  results return_sample processed.

(** *** Reference behaviours used to state properties *)

(** What opening [path] asks of the outside, what it records, and where
    the pixels then come from (lines 30-33 and 56-59). *)
Definition fetch (path : string) : string + (mode * (nat * nat)) :=
  if is_url path then http_get path else open_file path.

Definition fetch_event (path : string) : Event :=
  if is_url path then EvGet path else EvOpen path.

Definition fetched_from (path : string) : pix :=
  if is_url path then Url path else File path.

Definition fetcher (path : string) : string :=
  if is_url path then "requests.get" else "Image.open".


(** A run of frames as the animation loop drives it: each call gets its
    own [args] and frame index, all share [root] (and the world). *)
Definition call : Type := Args.t * Z * bool.

Definition run_call (c : call) (st : State) : (exn + list Image) * State :=
  let '(args, frame, return_sample) := c in
  generate frame return_sample
    (mkState args (st_root st) (st_trace st) (st_draws st)).

Fixpoint run_calls (cs : list call) (st : State) : State :=
  match cs with
  | [] => st
  | c :: cs' => run_calls cs' (snd (run_call c st))
  end.

Fixpoint all_succeed (cs : list call) (st : State) : Prop :=
  match cs with
  | [] => True
  | c :: cs' =>
      (exists res, fst (run_call c st) = inr res)
      /\ all_succeed cs' (snd (run_call c st))
  end.

End Generate.

(** The events a computation added to the trace. *)
Definition new_events (st st' : State) : list Event :=
  skipn (List.length (st_trace st)) (st_trace st').

Definition is_dispatch (e : Event) : bool :=
  match e with EvDispatch _ => true | _ => false end.

Definition is_eval (e : Event) : bool :=
  match e with EvEval _ _ => true | _ => false end.

(** [grows ok st st']: the trace of [st'] is the trace of [st] followed by
    events that all satisfy [ok]. *)
Definition grows (ok : Event -> bool) (st st' : State) : Prop :=
  exists evs, st_trace st' = (st_trace st ++ evs)%list /\ forallb ok evs = true.

(** Events of the prompt and pipeline set-up (lines 103 and 108). *)
Definition is_prep (e : Event) : bool :=
  match e with EvEval _ _ | EvMakedirs _ => true | _ => false end.

(** Events that reach for pixels: a file, a URL, the random generator. *)
Definition is_source (e : Event) : bool :=
  match e with EvOpen _ | EvGet _ | EvRand _ => true | _ => false end.

(** A prompt laid out as text, expression, text, expression, ..., text:
    [segs] lists each expression body together with the text before it. *)
Fixpoint render (segs : list (string * string)) (tail : string) : string :=
  match segs with
  | [] => tail
  | (t, b) :: segs' => t ++ "`" ++ b ++ "`" ++ render segs' tail
  end.

(** Neither the text nor the expression body holds a backtick. *)
Definition plain (tb : string * string) : Prop :=
  Str.has_tick (fst tb) = false /\ Str.has_tick (snd tb) = false.

(** The condition of line 131. *)
Definition policy_applies (args : Args.t) : bool :=
  negb (Args.use_init args) && PrimFloat.ltb 0%float (Args.strength args)
  && Args.strength_0_no_init args.

(** The three first-result attributes of [root] agree. *)
Definition same_first_results (st st' : State) : Prop :=
  Root.initial_seed (st_root st') = Root.initial_seed (st_root st)
  /\ Root.initial_info (st_root st') = Root.initial_info (st_root st)
  /\ Root.first_frame (st_root st') = Root.first_frame (st_root st).

(** The state after one more event. *)
Definition log (e : Event) (st : State) : State :=
  mkState (st_args st) (st_root st) (st_trace st ++ [e]) (st_draws st).

(** The test of line 143. *)
Definition usable_init (args : Args.t) : bool :=
  Args.use_init args
  && match Args.init_image args with
     | None => false
     | Some path => negb (String.eqb path EmptyString)
     end.

(** The request as it stands when it is handed to the engine. *)
Definition request (init : option Image) (mask : option Image) (st : State)
  : P.t :=
  P.set_mask mask (P.set_init_images [init] (Root.p (st_root st))).

Definition submitted (init : option Image) (mask : option Image)
    (st : State) : State :=
  mkState (st_args st)
          (Root.set_p (request init mask st) (st_root st))
          (st_trace st ++ [EvDispatch (request init mask st)])
          (st_draws st).

Definition not_dispatch (e : Event) : bool := negb (is_dispatch e).

(** All three first-result attributes are set. *)
Definition populated (r : Root.t) : Prop :=
  Root.initial_seed r <> None /\ Root.initial_info r <> None
  /\ Root.first_frame r <> None.

(** ** A concrete world, for running the code

    An evaluator that rejects one expression, a disk with two pictures, a
    web that serves one, and an engine that hands back the init image. *)
Module Example.

Definition evaluator (m : string) (frame : Z) : string + Z :=
  if String.eqb m "`oops`" then inl "invalid syntax" else inr frame.

Definition show (w : Z) : string :=
  if (w =? 0)%Z then "0.0" else "1.0".

Definition disk (path : string) : string + (mode * (nat * nat)) :=
  if String.eqb path "init.png" then inr (RGBA, (640, 480))
  else if String.eqb path "mask.png" then inr (L, (64, 64))
  else inl "No such file or directory".

Definition web (url : string) : string + (mode * (nat * nat)) :=
  if String.eqb url "https://example.org/init.jpg" then inr (RGB, (320, 200))
  else inl "404".

Definition engine (history : list Event) (p : P.t)
  : string + Processed.t :=
  match P.init_images p with
  | Some im :: _ => inr (Processed.mk [im] (P.seed p) "Steps: 20")
  | _ => inl "no init image"
  end.

Definition run (frame : Z) (return_sample : bool) : M (list Image) :=
  generate Z evaluator show disk web engine frame return_sample.

Definition blank_p : P.t :=
  P.mk 0 0 0 0 0 false false 0 0%float [] 0 0%float EmptyString EmptyString EmptyString EmptyString 0%float
       [] None.

Definition empty_root : Root.t := Root.mk blank_p "outputs" None None None.

(** The attributes that vary between the runs below; the rest are fixed. *)
Definition args_with (prompt : option string) (W H : nat)
    (use_init : bool) (strength : float) (strength_0_no_init : bool)
    (init_sample : option sample) (init_image : option string)
    (use_alpha_as_mask use_mask : bool) (mask_file : option string)
    (mask_contrast_adjust mask_brightness_adjust : float)
    (invert_mask overlay_mask : bool) : Args.t :=
  Args.mk prompt "outputs/frames" 1 W H 20 42 true false 0 5%float 7%float
          use_init strength strength_0_no_init init_sample init_image
          use_alpha_as_mask use_mask mask_file mask_contrast_adjust
          mask_brightness_adjust invert_mask overlay_mask.

Definition world (args : Args.t) : State := mkState args empty_root [] 0.

(** Text to image, portrait format. *)
Definition txt2img : Args.t :=
  args_with (Some "a cat `t` --neg dog") 512 768 false 0.5%float true
            None None false false None 1%float 1%float false false.

(** Two negative-prompt markers. *)
Definition two_markers : Args.t :=
  args_with (Some "a --neg b --neg c") 512 512 false 0%float true
            None None false false None 1%float 1%float false false.

(** No prompt. *)
Definition no_prompt : Args.t :=
  args_with None 512 512 false 0%float true
            None None false false None 1%float 1%float false false.

(** An init picture from disk. *)
Definition img2img : Args.t :=
  args_with (Some "a cat") 512 512 true 0.75%float true
            None (Some "init.png") true false None 1%float 1%float
            false false.

(** An init picture, a mask file, brightness doubled, contrast as is. *)
Definition masked : Args.t :=
  args_with (Some "a cat") 512 512 true 0.75%float true
            None (Some "init.png") false true (Some "mask.png")
            1%float 2%float false false.

Definition a_mask : Image := mkImage L (64, 64) (File "mask.png").

End Example.

(** ** Further notions, for the properties beyond the claims *)

(** [d.get(k)] on a dict kept in insertion order. *)
Fixpoint dict_get {V : Type} (k : string) (d : list (string * V)) : option V :=
  match d with
  | [] => None
  | (k', v) :: d' => if String.eqb k k' then Some v else dict_get k d'
  end.

Definition is_print (e : Event) : bool :=
  match e with EvPrint _ => true | _ => false end.


(** Line 65 followed by PIL's check of the size: [(shape[-1], shape[-2])]
    as a (width, height) pair. *)
Definition trailing_dims (shape : pyval) : exn + (nat * nat) :=
  match subscript_from_end shape 1 with
  | inl e => inl e
  | inr w =>
      match subscript_from_end shape 2 with
      | inl e => inl e
      | inr h =>
          match as_dimension w with
          | inl e => inl e
          | inr w' =>
              match as_dimension h with
              | inl e => inl e
              | inr h' => inr (w', h')
              end
          end
      end
  end.

(** More concrete inputs. *)
Module Cases.
Import Example.

(** A decoded sample of three bands, 64 rows, 48 columns. *)
Definition a_sample : sample := Tensor (mkArray [3; 64; 48] f16 (SampleData 0)).

(** A frame that carries the previous sample over. *)
Definition carried : Args.t :=
  args_with (Some "a cat") 512 512 false 0.5%float true
            (Some a_sample) None false false None 1%float 1%float
            false false.

(** A prompt whose second expression the evaluator rejects. *)
Definition bad_math : Args.t :=
  args_with (Some "a `t` cat `oops` dog `t`") 512 512 false 0%float true
            None None false false None 1%float 1%float false false.

(** An engine that returns no image. *)
Definition barren (history : list Event) (p : P.t) : string + Processed.t :=
  inr (Processed.mk [] (P.seed p) "Steps: 20").

(** A request object left over from an earlier frame. *)
Definition used_p : P.t :=
  P.mk 4 64 64 10 7 true true 3 1%float
       [("Mask blur", 1%float); ("Eta", 0.5%float)] 2 3%float
       "old" "old-grids" "old prompt" "old negative" 0.25%float
       [] (Some a_mask).

Definition used_root : Root.t := Root.mk used_p "outputs" None None None.

(** An init picture from disk, with that request object. *)
Definition reused : State := mkState img2img used_root [] 0.


End Cases.

(** * Properties *)

(** ** The monad *)

Lemma bind_ok {A B : Type} (m : M A) (k : A -> M B) st a st1 :
  m st = (inr a, st1) -> bind m k st = k a st1.
Proof. unfold bind; now intros ->. Qed.

Lemma bind_err {A B : Type} (m : M A) (k : A -> M B) st e st1 :
  m st = (inl e, st1) -> bind m k st = (inl e, st1).
Proof. unfold bind; now intros ->. Qed.


(** ** Backticks and the math pattern *)

Module StrFacts.
Import Str.

Lemma append_assoc (a b c : string) : (a ++ b) ++ c = a ++ (b ++ c).
Proof. induction a as [|x a IH]; simpl; [reflexivity | now rewrite IH]. Qed.

Lemma length_append (a b : string) :
  String.length (a ++ b) = String.length a + String.length b.
Proof. induction a as [|x a IH]; simpl; [reflexivity | now rewrite IH]. Qed.

Lemma prefix_append (a b : string) : String.prefix a (a ++ b) = true.
Proof.
  induction a as [|x a IH]; simpl.
  - now destruct b.
  - destruct (ascii_dec x x) as [_|n]; [exact IH | now elim n].
Qed.

Lemma prefix_split (a s : string) :
  String.prefix a s = true -> s = a ++ drop (String.length a) s.
Proof.
  revert s; induction a as [|x a IH]; intros [|y s] H; simpl in *;
    try reflexivity; try discriminate.
  destruct (ascii_dec x y) as [->|]; [|discriminate].
  now rewrite <- IH.
Qed.

Lemma find_sound (sep s a b : string) :
  find sep s = Some (a, b) -> s = a ++ sep ++ b.
Proof.
  revert a b; induction s as [|c s IH]; intros a b.
  - cbn [find]. destruct (String.prefix sep EmptyString) eqn:E; [|discriminate].
    intros [= <- <-]. simpl. now apply prefix_split.
  - cbn [find]. destruct (String.prefix sep (String c s)) eqn:E.
    + intros [= <- <-]. simpl. now apply prefix_split.
    + destruct (find sep s) as [[a' b']|]; [|discriminate].
      intros [= <- <-]. simpl. f_equal. now apply IH.
Qed.

Lemma find_shrinks (sep s a b : string) :
  sep <> EmptyString -> find sep s = Some (a, b) -> String.length b < String.length s.
Proof.
  intros Hsep H. apply find_sound in H. subst s.
  rewrite !length_append. destruct sep; [congruence | simpl; lia].
Qed.

Lemma split_fuel_stable (sep : string) (n m : nat) (s : string) :
  sep <> EmptyString -> String.length s <= n -> String.length s <= m ->
  split_fuel n sep s = split_fuel m sep s.
Proof.
  intros Hsep. revert m s.
  induction n as [|n IH]; intros [|m] s Hn Hm; cbn [split_fuel];
    try reflexivity;
    destruct (find sep s) as [[a b]|] eqn:E; try reflexivity;
    pose proof (find_shrinks _ _ _ _ Hsep E); try lia.
  f_equal. apply IH; lia.
Qed.

Lemma split_fuel_enough (sep : string) (n : nat) (s : string) :
  sep <> EmptyString -> String.length s <= n -> split_fuel n sep s = split sep s.
Proof. intros Hsep Hn. apply split_fuel_stable; auto. Qed.


Lemma until_tick_none (t : string) :
  has_tick t = false -> until_tick t = None.
Proof.
  induction t as [|c t IH]; simpl; [reflexivity|].
  intros H. apply orb_false_iff in H as [Hc Ht].
  now rewrite Hc, (IH Ht).
Qed.

Lemma until_tick_sound (s a b : string) :
  until_tick s = Some (a, b) ->
  s = a ++ String "`" b /\ has_tick a = false.
Proof.
  revert a b; induction s as [|c s IH]; simpl; intros a b; [discriminate|].
  destruct (Ascii.eqb c "`") eqn:E.
  - intros [= <- <-]. apply Ascii.eqb_eq in E. subst c. now split.
  - destruct (until_tick s) as [[a' b']|]; [|discriminate].
    intros [= <- <-]. destruct (IH _ _ eq_refl) as [-> Ha].
    simpl. now rewrite E.
Qed.


Lemma tick_search_sound (s pre m post : string) :
  tick_search s = Some (pre, m, post) ->
  exists body, m = "`" ++ body ++ "`" /\ s = pre ++ m ++ post /\
               has_tick pre = false /\ has_tick body = false.
Proof.
  unfold tick_search.
  destruct (until_tick s) as [[a r]|] eqn:E1; [|discriminate].
  destruct (until_tick r) as [[body q]|] eqn:E2; [|discriminate].
  intros [= <- <- <-].
  apply until_tick_sound in E1 as [-> Ha], E2 as [-> Hb].
  exists body. repeat split; auto.
  simpl. now rewrite append_assoc.
Qed.

Lemma tick_search_shrinks (s pre m post : string) :
  tick_search s = Some (pre, m, post) -> String.length post < String.length s.
Proof.
  intros H. apply tick_search_sound in H as (body & -> & -> & _).
  rewrite !length_append. simpl. lia.
Qed.

Lemma find_prefix (sep s : string) :
  String.prefix sep s = true ->
  find sep s = Some (EmptyString, drop (String.length sep) s).
Proof. intros H. destruct s; cbn [find]; now rewrite H. Qed.

Lemma find_none (sep s : string) :
  find sep s = None -> forall a b, s <> a ++ sep ++ b.
Proof.
  intros H a b ->. revert H.
  induction a as [|c a IH]; cbn [append].
  - rewrite find_prefix by apply prefix_append. discriminate.
  - cbn [find].
    destruct (String.prefix sep (String c (a ++ sep ++ b)));
      [intros H; discriminate H|].
    destruct (find sep (a ++ sep ++ b)) as [[x y]|];
      [intros H; discriminate H|].
    intros _. now apply IH.
Qed.

(** [find] cuts at the leftmost occurrence: none starts inside the text
    it returns as "before". *)
Lemma find_leftmost (sep s a b : string) :
  find sep s = Some (a, b) ->
  forall a1 a2, a = a1 ++ a2 -> a2 <> EmptyString ->
  String.prefix sep (a2 ++ sep ++ b) = false.
Proof.
  revert a b. induction s as [|c s IH]; intros a b; cbn [find].
  - destruct (String.prefix sep EmptyString); [|discriminate].
    intros [= <- <-] a1 a2 E. now destruct a1, a2.
  - destruct (String.prefix sep (String c s)) eqn:Ep.
    + intros [= <- <-] a1 a2 E. now destruct a1, a2.
    + destruct (find sep s) as [[a' b']|] eqn:Ef; [|discriminate].
      intros [= <- <-] a1 a2 E Hne.
      destruct a1 as [|x a1]; simpl in E.
      * subst a2. simpl. apply find_sound in Ef. now rewrite <- Ef.
      * injection E as -> ->. now apply (IH _ _ eq_refl a1 a2).
Qed.

Lemma split_fuel_nonempty (n : nat) (sep s : string) :
  exists x l, split_fuel n sep s = x :: l.
Proof.
  destruct n; cbn [split_fuel]; [now eauto|].
  destruct (find sep s) as [[a b]|]; eauto.
Qed.

Lemma split_none (sep s : string) :
  find sep s = None -> split sep s = [s].
Proof.
  intros H. unfold split.
  destruct (String.length s); cbn [split_fuel]; [reflexivity|].
  now rewrite H.
Qed.

Lemma split_some (sep s a b : string) :
  sep <> EmptyString -> find sep s = Some (a, b) -> split sep s = a :: split sep b.
Proof.
  intros Hsep H. pose proof (find_shrinks _ _ _ _ Hsep H) as Hlt.
  unfold split at 1.
  destruct (String.length s) as [|n] eqn:E; [lia|].
  cbn [split_fuel]. rewrite H. f_equal.
  apply split_fuel_enough; [assumption | lia].
Qed.

End StrFacts.

(** ** The pattern and its hand reading agree *)

Module ReFacts.
Import Str Re.

Lemma take_append (a b : string) : take (String.length a) (a ++ b) = a.
Proof. induction a as [|c a IH]; simpl; [now destruct b | now rewrite IH]. Qed.

(** After the opening backtick, the lazy star followed by the closing
    backtick stops at the first backtick it meets. *)
Lemma lazy_star_until_tick (member : ascii -> bool) (s : string) :
  (forall c, member c = true) ->
  lazy_star member
    (fun s0 => match s0 with
               | String c s1 => if Ascii.eqb "`" c then Some s1 else None
               | EmptyString => None
               end) s
  = match until_tick s with Some (_, post) => Some post | None => None end.
Proof.
  intros Hall. induction s as [|c s IH]; cbn [lazy_star until_tick];
    [reflexivity|].
  rewrite (Ascii.eqb_sym "`" c).
  destruct (Ascii.eqb c "`"); [reflexivity|].
  rewrite Hall, IH. now destruct (until_tick s) as [[a r]|].
Qed.

Lemma match_start_math_parser (s : string) :
  match_start math_parser s
  = match s with
    | String c s' =>
        if Ascii.eqb c "`"
        then match until_tick s' with
             | Some (_, post) => Some post
             | None => None
             end
        else None
    | EmptyString => None
    end.
Proof.
  unfold match_start, math_parser. cbn [run].
  destruct s as [|c s]; [reflexivity|].
  rewrite (Ascii.eqb_sym "`" c).
  destruct (Ascii.eqb c "`"); [|reflexivity].
  apply lazy_star_until_tick. intros x. now destruct (is_space x).
Qed.

Lemma math_search_ticks (s : string) : math_search s = tick_search s.
Proof.
  unfold math_search, tick_search.
  induction s as [|c s IH]; cbn [search]; rewrite match_start_math_parser.
  - reflexivity.
  - cbn [until_tick]. destruct (Ascii.eqb c "`") eqn:Ec.
    + apply Ascii.eqb_eq in Ec. subst c.
      destruct (until_tick s) as [[body post]|] eqn:Eu.
      * apply StrFacts.until_tick_sound in Eu as [-> _]. clear IH.
        assert (E : String "`" (body ++ String "`" post)
                    = ("`" ++ body ++ "`") ++ post).
        { cbn [append]. now rewrite StrFacts.append_assoc. }
        rewrite E, StrFacts.length_append.
        replace (String.length ("`" ++ body ++ "`") + String.length post
                 - String.length post)
          with (String.length ("`" ++ body ++ "`")) by lia.
        now rewrite take_append.
      * now rewrite IH.
    + rewrite IH.
      destruct (until_tick s) as [[a r]|]; [|reflexivity].
      now destruct (until_tick r) as [[body post]|].
Qed.


Lemma math_search_sound (s pre m post : string) :
  math_search s = Some (pre, m, post) ->
  exists body, m = "`" ++ body ++ "`" /\ s = pre ++ m ++ post /\
               has_tick pre = false /\ has_tick body = false.
Proof. rewrite math_search_ticks. apply StrFacts.tick_search_sound. Qed.

Lemma math_search_shrinks (s pre m post : string) :
  math_search s = Some (pre, m, post) -> String.length post < String.length s.
Proof. rewrite math_search_ticks. apply StrFacts.tick_search_shrinks. Qed.

End ReFacts.


(** ** Prompt evaluation (lines 97-103) *)

Section PromptMath.

Variable weight : Type.
Variable parse_weight : string -> Z -> string + weight.
Variable str : weight -> string.

Local Abbreviation repl := (math_repl weight parse_weight str).



(** Every prompt is laid out in exactly this way. *)
Lemma every_prompt_laid_out (s : string) :
  exists segs tail,
    s = render segs tail /\ Forall plain segs /\ Re.math_search tail = None.
Proof.
  remember (String.length s) as n eqn:Hn.
  assert (Hle : String.length s <= n) by lia. clear Hn.
  revert s Hle. induction n as [|n IH]; intros s Hle.
  - destruct s; [|simpl in Hle; lia]. now exists [], EmptyString.
  - destruct (Re.math_search s) as [[[pre m] post]|] eqn:E.
    + pose proof (ReFacts.math_search_shrinks _ _ _ _ E) as Hlt.
      apply ReFacts.math_search_sound in E as (body & -> & -> & Hp & Hb).
      destruct (IH post ltac:(lia)) as (segs & tail & -> & Hs & Ht).
      exists ((pre, body) :: segs), tail. cbn [render].
      split; [|split; [constructor; [now split | exact Hs] | exact Ht]].
      f_equal. cbn [append]. f_equal. now rewrite StrFacts.append_assoc.
    + now exists [], s.
Qed.



End PromptMath.

(** ** The phases of [generate] *)

Lemma grows_refl ok st : grows ok st st.
Proof. exists []. now rewrite app_nil_r. Qed.

Lemma grows_same_trace ok st st' : st_trace st' = st_trace st -> grows ok st st'.
Proof. intros E. exists []. now rewrite app_nil_r. Qed.

Lemma grows_trans ok st1 st2 st3 :
  grows ok st1 st2 -> grows ok st2 st3 -> grows ok st1 st3.
Proof.
  intros (e1 & E1 & F1) (e2 & E2 & F2). exists (e1 ++ e2)%list.
  rewrite E2, E1, app_assoc, forallb_app, F1, F2. now split.
Qed.

Lemma grows_weaken (ok ok' : Event -> bool) st st' :
  (forall e, ok e = true -> ok' e = true) -> grows ok st st' -> grows ok' st st'.
Proof.
  intros PQ (evs & E & F). exists evs. split; [exact E|].
  rewrite forallb_forall in *. auto.
Qed.

Lemma new_events_app st st' evs :
  st_trace st' = (st_trace st ++ evs)%list -> new_events st st' = evs.
Proof.
  intros E. unfold new_events. rewrite E.
  rewrite skipn_app, skipn_all, Nat.sub_diag. reflexivity.
Qed.

Lemma grows_new_events ok st st' :
  grows ok st st' -> forallb ok (new_events st st') = true.
Proof. intros (evs & E & F). now rewrite (new_events_app _ _ _ E). Qed.

Section Phases.

Variable weight : Type.
Variable parse_weight : string -> Z -> string + weight.
Variable str : weight -> string.
Variable open_file : string -> string + (mode * (nat * nat)).
Variable http_get : string -> string + (mode * (nat * nat)).
Variable process_images : list Event -> P.t -> string + Processed.t.

Local Abbreviation repl := (math_repl weight parse_weight str).
Local Abbreviation load_img' := (load_img open_file http_get).
Local Abbreviation load_mask_latent' := (load_mask_latent open_file http_get).
Local Abbreviation prepare_mask' := (prepare_mask open_file http_get).
Local Abbreviation setup' := (setup weight parse_weight str).
Local Abbreviation resolve_init' := (resolve_init open_file http_get).
Local Abbreviation mask_functions' := (mask_functions open_file http_get).
Local Abbreviation call_prepare_mask' :=
  (call_prepare_mask open_file http_get).
Local Abbreviation dispatch' := (dispatch process_images).
Local Abbreviation fetch' := (fetch open_file http_get).
Local Abbreviation generate' :=
  (generate weight parse_weight str open_file http_get process_images).

(** *** Evaluation of the prompt touches nothing but the trace *)

Lemma re_sub_fuel_effect (frame : Z) (n : nat) (s : string) st r st' :
  re_sub_fuel n (repl frame) s st = (r, st') ->
  st_args st' = st_args st /\ st_root st' = st_root st
  /\ st_draws st' = st_draws st /\ grows is_eval st st'
  /\ (forall e, r = inl e -> is_assertion e = false).
Proof.
  revert s st r st'. induction n as [|n IH]; intros s st r st';
    cbn [re_sub_fuel].
  - intros [= <- <-]. repeat split; auto using grows_refl. discriminate.
  - destruct (Re.math_search s) as [[[pre m] post]|].
    2:{ intros [= <- <-]. repeat split; auto using grows_refl. discriminate. }
    unfold math_repl, bind, emit, answer, ret, raise.
    destruct (parse_weight m frame) as [d|w]; cbn.
    + intros [= <- <-]. cbn. repeat split; auto.
      * exists [EvEval m frame]. now split.
      * now intros e [= <-].
    + match goal with
      | |- context [re_sub_fuel n ?f post ?s0] =>
          destruct (re_sub_fuel n f post s0) as [[e|out] st1] eqn:E
      end;
      apply IH in E as (Ea & Er & Ed & Eg & Ee); cbn in Ea, Er, Ed;
      intros [= <- <-]; repeat split; auto;
        try (eapply grows_trans; [|exact Eg];
             exists [EvEval m frame]; now split);
        try discriminate.
Qed.

Lemma re_sub_effect (frame : Z) (s : string) st r st' :
  re_sub (repl frame) s st = (r, st') ->
  st_args st' = st_args st /\ st_root st' = st_root st
  /\ st_draws st' = st_draws st /\ grows is_eval st st'
  /\ (forall e, r = inl e -> is_assertion e = false).
Proof. apply re_sub_fuel_effect. Qed.

(** *** Lines 124-129: the negative-prompt marker *)

Lemma marker_nonempty : "--neg" <> EmptyString.
Proof. discriminate. Qed.

Lemma split_prompt_no_marker (s : string) st :
  Str.find "--neg" s = None ->
  split_prompt s st = set_p (P.set_prompts s EmptyString) st.
Proof.
  intros H. unfold split_prompt. rewrite (StrFacts.split_none _ _ H).
  reflexivity.
Qed.

Lemma split_prompt_one_marker (s a b : string) st :
  Str.find "--neg" s = Some (a, b) -> Str.find "--neg" b = None ->
  split_prompt s st = set_p (P.set_prompts a b) st.
Proof.
  intros H Hb. unfold split_prompt.
  rewrite (StrFacts.split_some _ _ _ _ marker_nonempty H).
  rewrite (StrFacts.split_none _ _ Hb). reflexivity.
Qed.

Lemma split_prompt_many (s a b : string) st :
  Str.find "--neg" s = Some (a, b) -> Str.find "--neg" b <> None ->
  split_prompt s st
  = (inl (ValueError "too many values to unpack (expected 2)"), st).
Proof.
  intros H Hb. unfold split_prompt.
  rewrite (StrFacts.split_some _ _ _ _ marker_nonempty H).
  destruct (Str.find "--neg" b) as [[a' b']|] eqn:E; [|congruence].
  rewrite (StrFacts.split_some _ _ _ _ marker_nonempty E).
  unfold Str.split.
  destruct (StrFacts.split_fuel_nonempty (String.length b') "--neg" b')
    as (x & l & ->).
  reflexivity.
Qed.

(** Whatever the prompt, line 124-129 either raise [ValueError] and leave
    the state alone, or assign the two prompts. *)
Lemma split_prompt_cases (s : string) st :
  split_prompt s st
  = (inl (ValueError "too many values to unpack (expected 2)"), st)
  \/ exists pos neg, split_prompt s st = set_p (P.set_prompts pos neg) st.
Proof.
  destruct (Str.find "--neg" s) as [[a b]|] eqn:E.
  - destruct (Str.find "--neg" b) as [[a' b']|] eqn:E'.
    + left. apply (split_prompt_many s a b); congruence.
    + right. exists a, b. now apply split_prompt_one_marker.
  - right. exists s, EmptyString. now apply split_prompt_no_marker.
Qed.

(** *** Lines 131-135: the strength policy *)

Lemma strength_policy_closed st :
  strength_policy st =
  if policy_applies (st_args st) then
    (inr tt,
     mkState (Args.set_strength 0%float (st_args st))
             (Root.set_p (P.set_denoising_strength 0%float
                            (Root.p (st_root st))) (st_root st))
             (st_trace st ++ [EvPrint notice1; EvPrint notice2])
             (st_draws st))
  else
    (inr tt,
     mkState (st_args st)
             (Root.set_p (P.set_denoising_strength
                            (Args.strength (st_args st))
                            (Root.p (st_root st))) (st_root st))
             (st_trace st) (st_draws st)).
Proof.
  unfold strength_policy, policy_applies, bind, get_args. cbn.
  destruct (negb (Args.use_init (st_args st))
            && PrimFloat.ltb 0%float (Args.strength (st_args st))
            && Args.strength_0_no_init (st_args st)); cbn.
  - now rewrite <- app_assoc.
  - reflexivity.
Qed.

(** *** Lines 93-135 as a whole *)

Lemma is_eval_prep e : is_eval e = true -> is_prep e = true.
Proof. now destruct e. Qed.

Lemma setup_ok (frame : Z) st st1 :
  setup' frame st = (inr tt, st1) ->
  Args.prompt (st_args st) <> None
  /\ st_args st1 = (if policy_applies (st_args st)
                    then Args.set_strength 0%float (st_args st)
                    else st_args st)
  /\ st_draws st1 = st_draws st
  /\ same_first_results st st1
  /\ P.denoising_strength (Root.p (st_root st1))
     = (if policy_applies (st_args st) then 0%float
        else Args.strength (st_args st))
  /\ exists evs,
       st_trace st1
       = (st_trace st ++ evs
          ++ (if policy_applies (st_args st)
              then [EvPrint notice1; EvPrint notice2] else []))%list
       /\ forallb is_prep evs = true.
Proof.
  unfold setup. unfold bind at 1. cbn.
  destruct (Args.prompt (st_args st)) as [s|] eqn:Ep; cbn; [|discriminate].
  unfold bind at 1. cbn. unfold bind at 1.
  destruct (re_sub (repl frame) s st) as [[e|parsed] st0] eqn:Es;
    [discriminate|].
  apply re_sub_effect in Es as (Ea & Er & Ed & (evs & Et & Fe) & _).
  match goal with
  | |- context [split_prompt parsed ?s0] =>
      destruct (split_prompt_cases parsed s0) as [E|(pos & neg & E)];
      rewrite E; [discriminate|]
  end.
  cbn -[strength_policy]. rewrite strength_policy_closed. cbn.
  rewrite Ea, Er, Ed, Et.
  destruct (policy_applies (st_args st)); intros [= <-]; cbn;
    (repeat split; try discriminate; auto);
    exists (evs ++ [EvMakedirs (Args.outdir (st_args st))])%list;
    (split; [now rewrite <- ?app_assoc, ?app_nil_r|]);
    rewrite forallb_app; cbn; rewrite andb_true_r;
    rewrite forallb_forall in *; auto using is_eval_prep.
Qed.

Lemma setup_err (frame : Z) st e st1 :
  setup' frame st = (inl e, st1) ->
  ((exists msg, e = AssertionError msg) <-> Args.prompt (st_args st) = None)
  /\ st_args st1 = st_args st
  /\ st_draws st1 = st_draws st
  /\ same_first_results st st1
  /\ grows is_prep st st1.
Proof.
  unfold setup. unfold bind at 1. cbn.
  destruct (Args.prompt (st_args st)) as [s|] eqn:Ep; cbn.
  2:{ intros [= <- <-]. repeat split; eauto using grows_refl. }
  unfold bind at 1. cbn. unfold bind at 1.
  destruct (re_sub (repl frame) s st) as [[e0|parsed] st0] eqn:Es.
  - apply re_sub_effect in Es as (Ea & Er & Ed & Eg & Ee).
    intros [= <- <-]. unfold same_first_results. rewrite Er.
    repeat split; auto; try discriminate.
    + intros (msg & ->). specialize (Ee _ eq_refl). discriminate.
    + eapply grows_weaken; [|exact Eg]. apply is_eval_prep.
  - apply re_sub_effect in Es as (Ea & Er & Ed & (evs & Et & Fe) & _).
    match goal with
    | |- context [split_prompt parsed ?s0] =>
        destruct (split_prompt_cases parsed s0) as [E|(pos & neg & E)];
        rewrite E
    end.
    + intros [= <- <-]. unfold same_first_results. cbn. rewrite Er.
      repeat split; auto; try discriminate.
      * intros (msg & [=]).
      * exists (evs ++ [EvMakedirs (Args.outdir (st_args st0))])%list.
        split; [now rewrite Et, <- app_assoc|].
        rewrite forallb_app; cbn; rewrite andb_true_r.
        rewrite forallb_forall in *; auto using is_eval_prep.
    + cbn -[strength_policy]. rewrite strength_policy_closed. cbn.
      destruct (policy_applies (st_args st0)); discriminate.
Qed.

(** *** Opening a picture *)

Lemma open_closed (path : string) st :
  (if is_url path then Image_open_url http_get path
   else Image_open open_file path) st
  = match fetch' path with
    | inl d => (inl (CollaboratorError (fetcher path) d),
                log (fetch_event path) st)
    | inr (m, size) => (inr (mkImage m size (fetched_from path)),
                        log (fetch_event path) st)
    end.
Proof.
  unfold fetch, fetcher, fetch_event, fetched_from, Image_open,
    Image_open_url, log.
  destruct (is_url path); cbn.
  - destruct (http_get path) as [d|[m size]]; reflexivity.
  - destruct (open_file path) as [d|[m size]]; reflexivity.
Qed.

(** *** Lines 28-49: [load_img] in closed form *)

Lemma load_img_closed (path : string) (shape : nat * nat) (alpha : bool) st :
  load_img' path shape alpha st
  = match fetch' path with
    | inl d => (inl (CollaboratorError (fetcher path) d),
                log (fetch_event path) st)
    | inr (m, size) =>
        let w := fst shape in
        let h := snd shape in
        (inr (mkImage RGB shape
                (if alpha
                 then Convert RGB
                        (Resize w h (Convert RGBA (fetched_from path)))
                 else Resize w h (Convert RGB (fetched_from path))),
              if alpha
              then Some (mkImage L shape
                           (Convert L
                              (Band 3
                                 (Resize w h
                                    (Convert RGBA (fetched_from path))))))
              else None),
         log (fetch_event path) st)
    end.
Proof.
  unfold load_img. unfold bind at 1. rewrite open_closed.
  destruct (fetch' path) as [d|[m size]]; [reflexivity|].
  destruct alpha; reflexivity.
Qed.

(** *** Lines 136-151: the three ways to an init image *)


Lemma resolve_init_explicit st path :
  Args.init_sample (st_args st) = None ->
  Args.use_init (st_args st) = true ->
  Args.init_image (st_args st) = Some path -> path <> EmptyString ->
  resolve_init' st
  = match load_img' path (Args.W (st_args st), Args.H (st_args st))
                    (Args.use_alpha_as_mask (st_args st)) st with
    | (inl e, st') => (inl e, st')
    | (inr (im, mask_image), st') => (inr (Some im, mask_image), st')
    end.
Proof.
  intros Hs Hu Hi Hne. unfold resolve_init, bind, get_args. cbn.
  rewrite Hs, Hu, Hi. cbn.
  destruct (String.eqb_spec path EmptyString); [contradiction|]. cbn.
  destruct (load_img' path _ _ st) as [[e|[im mi]] st']; reflexivity.
Qed.

Lemma resolve_init_noise st :
  Args.init_sample (st_args st) = None ->
  usable_init (st_args st) = false ->
  resolve_init' st
  = (inr (Some (mkImage RGB (Args.H (st_args st), Args.W (st_args st))
                  (Convert RGB
                     (FromArray
                        (AsType u8 (Times255 (Rand (st_draws st))))))),
          None),
     mkState (st_args st) (st_root st)
             (st_trace st
              ++ [EvRand [Args.W (st_args st); Args.H (st_args st); 3]])
             (S (st_draws st))).
Proof.
  intros Hs Hu. unfold resolve_init, bind, get_args. cbn.
  rewrite Hs. unfold usable_init in Hu. rewrite Hu. reflexivity.
Qed.

(** *** Lines 51-89: the mask *)

Lemma load_mask_latent_image (m : Image) (dims : list Z) (h w : nat) st :
  load_mask_latent' (VImage m)
    (VTuple (dims ++ [Z.of_nat h; Z.of_nat w])) st
  = (inr (mkImage L (w, h) (Convert L (Resize w h (im_pix m)))), st).
Proof.
  unfold load_mask_latent, bind, lift, ret, subscript_from_end. cbn.
  rewrite rev_app_distr. cbn. unfold as_dimension.
  destruct (Z.leb_spec 0 (Z.of_nat w)); [|lia].
  destruct (Z.leb_spec 0 (Z.of_nat h)); [|lia].
  rewrite !Nat2Z.id. reflexivity.
Qed.

Lemma prepare_mask_closed (mask_input shape : pyval) (b c : float)
    (invert : bool) st :
  prepare_mask' mask_input shape b c invert st
  = match load_mask_latent' mask_input shape st with
    | (inl e, st') => (inl e, st')
    | (inr m, st') =>
        if invert then (inl (NameError "PIL"), st')
        else
          let m1 := if ne b 1%float then TF.adjust_brightness m b else m in
          let m2 := if ne c 1%float then TF.adjust_contrast m1 c else m1 in
          (inr m2, st')
    end.
Proof.
  unfold prepare_mask. unfold bind at 1.
  destruct (load_mask_latent' mask_input shape st) as [[e|m] st'];
    [reflexivity|].
  destruct invert; reflexivity.
Qed.

(** Without inversion the mask is loaded, then brightened when the
    brightness factor is not 1, then contrasted when the contrast factor
    is not 1, in that order. *)
Lemma prepare_mask_order (mask_input shape : pyval) (b c : float) st m st' :
  load_mask_latent' mask_input shape st = (inr m, st') ->
  prepare_mask' mask_input shape b c false st
  = (inr (mkImage (im_mode m) (im_size m)
            (let p1 := if PrimFloat.eqb b 1%float then im_pix m
                       else Brightness b (im_pix m) in
             if PrimFloat.eqb c 1%float then p1 else Contrast c p1)),
     st').
Proof.
  intros E. rewrite prepare_mask_closed, E. unfold ne. cbv zeta.
  destruct m as [md sz px].
  destruct (PrimFloat.eqb b 1%float), (PrimFloat.eqb c 1%float);
    reflexivity.
Qed.

(** With inversion requested line 87 reads the name [PIL], which the
    module never binds. *)
Lemma prepare_mask_invert_raises (mask_input shape : pyval) (b c : float)
    st m st' :
  load_mask_latent' mask_input shape st = (inr m, st') ->
  prepare_mask' mask_input shape b c true st = (inl (NameError "PIL"), st').
Proof. intros E. now rewrite prepare_mask_closed, E. Qed.

(** *** Lines 154-170 *)

Lemma mask_functions_closed (init mask_image : option Image) st :
  mask_functions' init mask_image st
  = (if Args.use_mask (st_args st) then
       if is_none (Args.mask_file (st_args st)) && is_none mask_image
       then inl (AssertionError msg_no_mask)
       else if negb (Args.use_init (st_args st))
            then inl (AssertionError msg_no_init)
            else match init with
                 | Some _ => inl (AttributeError "Image" "shape")
                 | None => inl (AttributeError "NoneType" "shape")
                 end
     else inr None,
     st).
Proof.
  unfold mask_functions, bind, get_args. cbn.
  destruct (Args.use_mask (st_args st)); [|reflexivity].
  destruct (Args.mask_file (st_args st)) as [f|], mask_image as [mi|]; cbn;
    destruct (Args.use_init (st_args st)); cbn; try reflexivity;
    destruct init; reflexivity.
Qed.

(** *** Lines 174-195 *)

(** *** What resolving the init image can and cannot do *)

Lemma usable_init_path (args : Args.t) :
  usable_init args = true ->
  Args.use_init args = true
  /\ exists path, Args.init_image args = Some path /\ path <> EmptyString.
Proof.
  unfold usable_init. intros H. apply andb_true_iff in H as [Hu Hp].
  split; [exact Hu|].
  destruct (Args.init_image args) as [path|]; [|discriminate].
  exists path. split; [reflexivity|].
  intros ->. discriminate.
Qed.

Lemma resolve_init_effect st :
  let out := resolve_init' st in
  st_root (snd out) = st_root st
  /\ grows is_source st (snd out)
  /\ (st_args (snd out) = st_args st
      \/ exists a, Args.init_sample (st_args st) <> None
                   /\ st_args (snd out)
                      = Args.set_init_sample (Some a) (st_args st))
  /\ (forall e, fst out = inl e -> is_assertion e = false)
  /\ (forall init mi, fst out = inr (init, mi) -> init <> None).
Proof.
  destruct (Args.init_sample (st_args st)) as [s|] eqn:Hs.
  - cbv zeta. unfold resolve_init, bind, get_args. cbn. rewrite Hs.
    destruct s as [t|a]; cbn;
      [|repeat split; auto using grows_refl; try discriminate;
        now intros e [= <-]].
    unfold Np.rearrange_chw_hwc.
    destruct (a_shape t) as [|c [|h [|w [|x l]]]] eqn:Esh; cbn;
      try (repeat split; auto using grows_refl; try discriminate;
           now intros e [= <-]).
    unfold PIL.fromarray; cbn.
    destruct c as [|[|[|[|[|c]]]]]; cbn;
      (repeat split; auto using grows_refl; try discriminate;
       try (now apply grows_same_trace);
       try (now intros e [= <-]);
       try (right; eexists; split; [congruence|reflexivity]);
       try (intros init mi [= <- <-]; discriminate)).
  - destruct (usable_init (st_args st)) eqn:Hu.
    + destruct (usable_init_path _ Hu) as (Hi & path & Hp & Hne).
      cbv zeta. rewrite (resolve_init_explicit st path Hs Hi Hp Hne).
      rewrite load_img_closed.
      destruct (fetch' path) as [d|[m size]]; cbn;
        (repeat split; auto; try discriminate;
         try (now intros e [= <-]);
         try (intros init mi [= <- <-]; discriminate);
         try (exists [fetch_event path]; split; [reflexivity|];
              unfold fetch_event; now destruct (is_url path))).
    + cbv zeta. rewrite (resolve_init_noise st Hs Hu). cbn.
      repeat split; auto; try discriminate.
      * now exists [EvRand [Args.W (st_args st); Args.H (st_args st); 3]].
      * intros init mi [= <- <-]. discriminate.
Qed.

(** *** Lines 174-195 *)

Lemma finish_effect (return_sample : bool) (pr : Processed.t) st r st' :
  (record_first pr ;; results return_sample pr) st = (r, st') ->
  st_args st' = st_args st /\ st_trace st' = st_trace st
  /\ st_draws st' = st_draws st
  /\ Root.p (st_root st') = Root.p (st_root st)
  /\ Root.initial_info (st_root st')
     = match Root.initial_info (st_root st) with
       | Some x => Some x
       | None => Some (Processed.info pr)
       end
  /\ Root.initial_seed (st_root st')
     = match Root.initial_info (st_root st) with
       | Some _ => Root.initial_seed (st_root st)
       | None => Some (Processed.seed pr)
       end
  /\ (forall e, r = inl e -> is_assertion e = false)
  /\ (forall res, r = inr res ->
      return_sample = false
      /\ exists im ims,
           Processed.images pr = im :: ims /\ res = [im]
           /\ Root.first_frame (st_root st')
              = match Root.first_frame (st_root st) with
                | Some x => Some x
                | None => Some im
                end).
Proof.
  unfold record_first, results, bind, get_root, set_root, lift, ret, raise.
  cbn.
  destruct (Root.initial_info (st_root st)) as [i|] eqn:Ei; cbn;
    destruct (Root.first_frame (st_root st)) as [f|] eqn:Ef; cbn;
    destruct (Processed.images pr) as [|im ims]; cbn;
    destruct return_sample; cbn;
    intros [= <- <-]; cbn;
    (repeat split; auto; try discriminate;
     try (now intros e [= <-]);
     try (match goal with
          | H : inr _ = inr _ |- _ => injection H as <-
          end; exists im, ims; auto)).
Qed.

Lemma dispatch_closed st :
  dispatch' st
  = match process_images (st_trace st ++ [EvDispatch (Root.p (st_root st))])
                         (Root.p (st_root st)) with
    | inl d => (inl (CollaboratorError "process_images" d),
                log (EvDispatch (Root.p (st_root st))) st)
    | inr pr => (inr pr, log (EvDispatch (Root.p (st_root st))) st)
    end.
Proof.
  unfold dispatch, bind, get_root, emit, get_trace, answer, log. cbn.
  destruct (process_images _ _); reflexivity.
Qed.

(** *** The ways a call can go *)

Lemma generate_cases (frame : Z) (return_sample : bool) st :
  let out := generate' frame return_sample st in
  (exists e s1, setup' frame st = (inl e, s1) /\ out = (inl e, s1))
  \/ (exists s1, setup' frame st = (inr tt, s1) /\
      ((exists e s2, resolve_init' s1 = (inl e, s2) /\ out = (inl e, s2))
       \/ (exists init mi s2,
             resolve_init' s1 = (inr (init, mi), s2) /\
             ((Args.use_mask (st_args s2) = true /\
               exists e, mask_functions' init mi s2 = (inl e, s2)
                         /\ out = (inl e, s2))
              \/ (Args.use_mask (st_args s2) = false /\
                  match process_images (st_trace (submitted init None s2))
                                       (request init None s2) with
                  | inl d =>
                      out = (inl (CollaboratorError "process_images" d),
                             submitted init None s2)
                  | inr pr =>
                      out = (record_first pr ;; results return_sample pr)
                              (submitted init None s2)
                  end))))).
Proof.
  intros out.
  assert (Eo : out = generate' frame return_sample st) by reflexivity.
  clearbody out. unfold generate in Eo. unfold bind at 1 in Eo.
  destruct (setup' frame st) as [[e|[]] s1] eqn:Es; [left; eauto|].
  right. exists s1. split; [reflexivity|].
  unfold bind at 1 in Eo.
  destruct (resolve_init' s1) as [[e|[init mi]] s2] eqn:Ei; [left; eauto|].
  right. exists init, mi, s2. split; [reflexivity|].
  unfold bind at 1 in Eo. rewrite mask_functions_closed in *.
  destruct (Args.use_mask (st_args s2)) eqn:Em.
  - left. split; [reflexivity|].
    destruct (is_none (Args.mask_file (st_args s2)) && is_none mi);
      [eauto|].
    destruct (negb (Args.use_init (st_args s2))); [eauto|].
    destruct init; eauto.
  - right. split; [reflexivity|].
    unfold overlay_check, bind at 1, get_args in Eo. cbn in Eo.
    rewrite Em in Eo. cbn in Eo.
    unfold bind at 1 in Eo. rewrite dispatch_closed in Eo.
    unfold log in Eo. cbn [st_args st_root st_trace st_draws] in Eo.
    change (Root.p (Root.set_p ?x ?r)) with x in Eo.
    unfold submitted, request. cbn [st_trace].
    destruct (process_images _ _) as [d|pr]; exact Eo.
Qed.

(** *** Only line 177 dispatches *)

Lemma prep_not_dispatch e : is_prep e = true -> not_dispatch e = true.
Proof. now destruct e. Qed.

Lemma source_not_dispatch e : is_source e = true -> not_dispatch e = true.
Proof. now destruct e. Qed.

Lemma resolve_init_grows st r s2 :
  resolve_init' st = (r, s2) -> grows not_dispatch st s2.
Proof.
  intros E. pose proof (resolve_init_effect st) as (_ & G & _).
  rewrite E in G. cbn in G.
  eapply grows_weaken; [|exact G]. apply source_not_dispatch.
Qed.

Lemma setup_grows (frame : Z) st r s1 :
  setup' frame st = (r, s1) -> grows not_dispatch st s1.
Proof.
  destruct r as [e|[]]; intros E.
  - apply setup_err in E as (_ & _ & _ & _ & G).
    eapply grows_weaken; [|exact G]. apply prep_not_dispatch.
  - apply setup_ok in E as (_ & _ & _ & _ & _ & evs & Et & F).
    eexists. split; [exact Et|].
    rewrite forallb_app. apply andb_true_iff. split.
    + rewrite forallb_forall in *. auto using prep_not_dispatch.
    + now destruct (policy_applies (st_args st)).
Qed.

Lemma no_dispatch_in ok st st' p :
  grows ok st st' -> (forall e, ok e = true -> is_dispatch e = false) ->
  ~ In (EvDispatch p) (new_events st st').
Proof.
  intros G Hok Hin. apply grows_new_events in G.
  rewrite forallb_forall in G. apply G, Hok in Hin. discriminate.
Qed.

Lemma not_dispatch_spec e : not_dispatch e = true -> is_dispatch e = false.
Proof. unfold not_dispatch. now destruct (is_dispatch e). Qed.

(** A request found among the new events of a call is the one built from
    the image that line 139-151 resolved, after a mask phase that had
    nothing to do. *)
Lemma generate_dispatched (frame : Z) (return_sample : bool) st p :
  In (EvDispatch p)
     (new_events st (snd (generate' frame return_sample st))) ->
  exists s1 init mi s2,
    setup' frame st = (inr tt, s1)
    /\ resolve_init' s1 = (inr (init, mi), s2)
    /\ Args.use_mask (st_args s2) = false
    /\ p = request init None s2
    /\ st_trace (snd (generate' frame return_sample st))
       = (st_trace s2 ++ [EvDispatch p])%list.
Proof.
  intros Hin.
  destruct (generate_cases frame return_sample st)
    as [(e & s1 & Es & Eo)|(s1 & Es & [(e & s2 & Ei & Eo)|
         (init & mi & s2 & Ei & [(Em & e & _ & Eo)|(Em & Eo)])])].
  - rewrite Eo in Hin. cbn in Hin. exfalso.
    eapply no_dispatch_in; eauto using setup_grows, not_dispatch_spec.
  - rewrite Eo in Hin. cbn in Hin. exfalso.
    eapply no_dispatch_in; [|apply not_dispatch_spec|exact Hin].
    eapply grows_trans; eauto using setup_grows, resolve_init_grows.
  - rewrite Eo in Hin. cbn in Hin. exfalso.
    eapply no_dispatch_in; [|apply not_dispatch_spec|exact Hin].
    eapply grows_trans; eauto using setup_grows, resolve_init_grows.
  - assert (G : grows not_dispatch st s2).
    { eapply grows_trans; eauto using setup_grows, resolve_init_grows. }
    assert (Et : st_trace (snd (generate' frame return_sample st))
                 = (st_trace s2 ++ [EvDispatch (request init None s2)])%list).
    { destruct (process_images _ _) as [d|pr]; rewrite Eo; [reflexivity|].
      destruct ((record_first pr;; results return_sample pr)
                  (submitted init None s2)) as [r st'] eqn:Ef.
      apply finish_effect in Ef as (_ & Ef & _). cbn. now rewrite Ef. }
    destruct G as (evs & Eg & F).
    unfold new_events in Hin. rewrite Et, Eg in Hin.
    rewrite <- app_assoc, skipn_app, skipn_all, Nat.sub_diag in Hin.
    cbn in Hin. apply in_app_or in Hin as [Hin|[Hin|[]]].
    + rewrite forallb_forall in F. apply F in Hin. discriminate.
    + injection Hin as <-. exists s1, init, mi, s2. auto.
Qed.

(** ** What the code guarantees *)


(** The failure side of [load_img]. *)
Lemma load_img_failure (path : string) (shape : nat * nat)
    (use_alpha_as_mask : bool) (d : string) st :
  fetch' path = inl d ->
  load_img' path shape use_alpha_as_mask st
  = (inl (CollaboratorError (fetcher path) d), log (fetch_event path) st).
Proof. intros Hf. now rewrite load_img_closed, Hf. Qed.



(** *** Precondition failures *)

Lemma setup_no_prompt (frame : Z) st :
  Args.prompt (st_args st) = None ->
  setup' frame st = (inl (AssertionError EmptyString), st).
Proof. intros H. unfold setup, bind, get_args. cbn. now rewrite H. Qed.

Lemma flags_kept (frame : Z) st s1 r s2 :
  setup' frame st = (inr tt, s1) -> resolve_init' s1 = (r, s2) ->
  Args.use_mask (st_args s2) = Args.use_mask (st_args st)
  /\ Args.mask_file (st_args s2) = Args.mask_file (st_args st)
  /\ Args.use_init (st_args s2) = Args.use_init (st_args st)
  /\ Args.overlay_mask (st_args s2) = Args.overlay_mask (st_args st).
Proof.
  intros Es Ei. apply setup_ok in Es as (_ & Ea & _).
  pose proof (resolve_init_effect s1) as (_ & _ & [E|(a & _ & E)] & _);
    rewrite Ei in E; cbn in E; rewrite E, Ea;
    now destruct (policy_applies (st_args st)).
Qed.

Lemma generate_after_init (frame : Z) (return_sample : bool)
    st s1 init mi s2 :
  setup' frame st = (inr tt, s1) ->
  resolve_init' s1 = (inr (init, mi), s2) ->
  generate' frame return_sample st
  = (mask <- mask_functions' init mi ;;
     overlay_check init ;;
     set_p (P.set_init_images [init]) ;;
     set_p (P.set_mask mask) ;;
     processed <- dispatch' ;;
     record_first processed ;;
     results return_sample processed) s2.
Proof.
  intros Es Ei. unfold generate.
  rewrite (bind_ok _ _ _ _ _ Es), (bind_ok _ _ _ _ _ Ei). reflexivity.
Qed.

(** C7.  [generate] raises [AssertionError] in these situations and in no
    other: the prompt is [None]; or, the prompt having been evaluated and
    the init image resolved, [use_mask] is set and (a) there is neither a
    [mask_file] nor a mask taken from the init image's alpha band, or (b)
    [use_init] is off, or (c) [overlay_mask] is set while neither a sample
    nor a resolved init image exists.  The message tells which check fired,
    the checks are tried in that order, and no request has been dispatched
    when one fires. *)
Theorem precondition_errors (frame : Z) (return_sample : bool) st :
  let args := st_args st in
  let out := generate' frame return_sample st in
  ((exists msg, fst out = inl (AssertionError msg)) <->
   Args.prompt args = None
   \/ exists s1 init mask_image s2,
        setup' frame st = (inr tt, s1)
        /\ resolve_init' s1 = (inr (init, mask_image), s2)
        /\ Args.use_mask args = true
        /\ ((Args.mask_file args = None /\ mask_image = None)
            \/ Args.use_init args = false
            \/ (Args.overlay_mask args = true
                /\ Args.init_sample (st_args s2) = None /\ init = None)))
  /\ (Args.prompt args = None -> out = (inl (AssertionError EmptyString), st))
  /\ (forall s1 init mask_image s2,
        setup' frame st = (inr tt, s1) ->
        resolve_init' s1 = (inr (init, mask_image), s2) ->
        Args.use_mask args = true ->
        out = (if is_none (Args.mask_file args) && is_none mask_image
               then inl (AssertionError msg_no_mask)
               else if negb (Args.use_init args)
                    then inl (AssertionError msg_no_init)
                    else inl (AttributeError "Image" "shape"),
               s2))
  /\ (forall msg p, fst out = inl (AssertionError msg) ->
       ~ In (EvDispatch p) (new_events st (snd out))).
Proof.
  cbv zeta.
  assert (Mask : forall s1 init mi s2,
    setup' frame st = (inr tt, s1) ->
    resolve_init' s1 = (inr (init, mi), s2) ->
    Args.use_mask (st_args st) = true ->
    generate' frame return_sample st
    = (if is_none (Args.mask_file (st_args st)) && is_none mi
       then inl (AssertionError msg_no_mask)
       else if negb (Args.use_init (st_args st))
            then inl (AssertionError msg_no_init)
            else inl (AttributeError "Image" "shape"),
       s2)).
  { intros s1 init mi s2 Es Ei Em.
    rewrite (generate_after_init _ _ _ _ _ _ _ Es Ei).
    destruct (flags_kept _ _ _ _ _ Es Ei) as (Fm & Ff & Fi & _).
    unfold bind at 1. rewrite mask_functions_closed, Fm, Ff, Fi, Em.
    pose proof (resolve_init_effect s1) as (_ & _ & _ & _ & Hne).
    rewrite Ei in Hne. specialize (Hne _ _ eq_refl).
    destruct (is_none (Args.mask_file (st_args st)) && is_none mi);
      [reflexivity|].
    destruct (negb (Args.use_init (st_args st))); [reflexivity|].
    destruct init; [reflexivity | contradiction]. }
  assert (NoPrompt : Args.prompt (st_args st) = None ->
    generate' frame return_sample st = (inl (AssertionError EmptyString), st)).
  { intros Hp. unfold generate.
    now rewrite (bind_err _ _ _ _ _ (setup_no_prompt frame st Hp)). }
  split; [split|split; [exact NoPrompt|split; [exact Mask|]]].
  - (* an assertion error comes from one of the situations *)
    intros (msg & E).
    destruct (generate_cases frame return_sample st)
      as [(e & s1 & Es & Eo)|(s1 & Es & [(e & s2 & Ei & Eo)|
           (init & mi & s2 & Ei & [(Em & e & Ek & Eo)|(Em & Eo)])])].
    + rewrite Eo in E. injection E as ->.
      apply setup_err in Es as (Ha & _). left. apply Ha. eauto.
    + rewrite Eo in E. injection E as ->.
      pose proof (resolve_init_effect s1) as (_ & _ & _ & Hn & _).
      rewrite Ei in Hn. specialize (Hn _ eq_refl). discriminate.
    + right. exists s1, init, mi, s2.
      destruct (flags_kept _ _ _ _ _ Es Ei) as (Fm & Ff & Fi & _).
      rewrite <- Fm. repeat split; auto.
      rewrite (Mask _ _ _ _ Es Ei) in E by congruence. cbn in E.
      destruct (Args.mask_file (st_args st)) as [f|], mi as [m|];
        cbn in E; auto;
        destruct (Args.use_init (st_args st)); cbn in E; auto;
        discriminate.
    + destruct (process_images _ _) as [d|pr]; rewrite Eo in E;
        [discriminate|].
      destruct ((record_first pr;; results return_sample pr)
                  (submitted init None s2)) as [r st'] eqn:Ef.
      apply finish_effect in Ef as (_ & _ & _ & _ & _ & _ & Hn & _).
      cbn in E. specialize (Hn _ E). discriminate.
  - (* each situation raises one *)
    intros [Hp|(s1 & init & mi & s2 & Es & Ei & Em & Hc)].
    + rewrite (NoPrompt Hp). cbn. eauto.
    + rewrite (Mask _ _ _ _ Es Ei Em).
      destruct Hc as [(Hf & ->)|[Hi|(_ & _ & ->)]].
      * rewrite Hf. cbn. eauto.
      * rewrite Hi. cbn.
        destruct (is_none (Args.mask_file (st_args st)) && is_none mi);
          cbn; eauto.
      * pose proof (resolve_init_effect s1) as (_ & _ & _ & _ & Hne).
        rewrite Ei in Hne. now specialize (Hne _ _ eq_refl).
  - (* nothing was dispatched *)
    intros msg p E Hin.
    apply generate_dispatched in Hin
      as (s1 & init & mi & s2 & Es & Ei & Em & _ & _).
    destruct (generate_cases frame return_sample st)
      as [(e & s1' & Es' & Eo)|(s1' & Es' & [(e & s2' & Ei' & Eo)|
           (init' & mi' & s2' & Ei' & [(Em' & e & Ek & Eo)|(Em' & Eo)])])];
      rewrite Es in Es'; try discriminate; injection Es' as <-;
      rewrite Ei in Ei'; try discriminate; injection Ei' as <- <- <-;
      try congruence.
    destruct (process_images _ _) as [d|pr]; rewrite Eo in E;
      [discriminate|].
    destruct ((record_first pr;; results return_sample pr)
                (submitted init None s2)) as [r st'] eqn:Ef.
    apply finish_effect in Ef as (_ & _ & _ & _ & _ & _ & Hn & _).
    cbn in E. specialize (Hn _ E). discriminate.
Qed.

(** *** The strength policy, end to end *)

(** C8.  Lines 131-135 never fail.  When [use_init] is off, the supplied
    strength is above zero and [strength_0_no_init] is set, they print the
    two-line notice, reset [args.strength] to zero and give the request a
    denoising strength of zero; in every other case they print nothing
    and the request gets the supplied strength.  A request that
    [generate] dispatches carries that strength, and in the events of
    the call the notice (when due) comes after nothing but evaluator
    calls and the directory creation, hence before any file, URL or
    random draw is touched and before the dispatch; nothing else is
    printed. *)
Theorem strength_policy_applied st :
  let args := st_args st in
  let due := negb (Args.use_init args)
             && PrimFloat.ltb 0%float (Args.strength args)
             && Args.strength_0_no_init args in
  let strength := if due then 0%float else Args.strength args in
  let notice := if due then [EvPrint notice1; EvPrint notice2] else [] in
  (fst (strength_policy st) = inr tt
   /\ P.denoising_strength (Root.p (st_root (snd (strength_policy st))))
      = strength
   /\ Args.strength (st_args (snd (strength_policy st))) = strength
   /\ new_events st (snd (strength_policy st)) = notice)
  /\ forall frame return_sample p,
       In (EvDispatch p)
          (new_events st (snd (generate' frame return_sample st))) ->
       P.denoising_strength p = strength
       /\ exists before after,
            new_events st (snd (generate' frame return_sample st))
            = (before ++ notice ++ after)%list
            /\ forallb is_prep before = true
            /\ forallb (fun e => is_source e || is_dispatch e) after = true.
Proof.
  cbv zeta. fold (policy_applies (st_args st)). split.
  - rewrite strength_policy_closed.
    destruct (policy_applies (st_args st)); cbn;
      (repeat split; try reflexivity); apply new_events_app; cbn;
      now rewrite ?app_nil_r.
  - intros frame return_sample p Hin.
    apply generate_dispatched in Hin
      as (s1 & init & mi & s2 & Es & Ei & Em & -> & Et).
    pose proof (resolve_init_effect s1) as (Er & (evs2 & Eg & F2) & _).
    rewrite Ei in Er, Eg. cbn in Er, Eg.
    apply setup_ok in Es as (_ & _ & _ & _ & Ed & evs & Ets & F).
    split.
    + unfold request. cbn. now rewrite Er.
    + exists evs, (evs2 ++ [EvDispatch (request init None s2)])%list.
      split; [|split; [exact F|]].
      * apply new_events_app. rewrite Et, Eg, Ets.
        now rewrite <- !app_assoc.
      * rewrite forallb_app. cbn. rewrite andb_true_r.
        rewrite forallb_forall in *. intros e He.
        now rewrite (F2 e He).
Qed.

(** *** The first-result record *)

Lemma generate_first_results (frame : Z) (return_sample : bool) st res st' :
  generate' frame return_sample st = (inr res, st') ->
  exists pr im ims history p,
    process_images history p = inr pr
    /\ In (EvDispatch p) (new_events st st')
    /\ Processed.images pr = im :: ims /\ res = [im]
    /\ Root.initial_info (st_root st')
       = match Root.initial_info (st_root st) with
         | Some x => Some x
         | None => Some (Processed.info pr)
         end
    /\ Root.initial_seed (st_root st')
       = match Root.initial_info (st_root st) with
         | Some _ => Root.initial_seed (st_root st)
         | None => Some (Processed.seed pr)
         end
    /\ Root.first_frame (st_root st')
       = match Root.first_frame (st_root st) with
         | Some x => Some x
         | None => Some im
         end.
Proof.
  intros E.
  destruct (generate_cases frame return_sample st)
    as [(e & s1 & Es & Eo)|(s1 & Es & [(e & s2 & Ei & Eo)|
         (init & mi & s2 & Ei & [(Em & e & Ek & Eo)|(Em & Eo)])])];
    try (rewrite E in Eo; discriminate).
  destruct (process_images _ _) as [d|pr] eqn:Ep;
    [rewrite E in Eo; discriminate|].
  rewrite E in Eo. symmetry in Eo.
  apply finish_effect in Eo
    as (_ & Et & _ & _ & Einfo & Eseed & _ & Hres).
  destruct (Hres _ eq_refl) as (_ & im & ims & Eim & -> & Eff).
  pose proof (resolve_init_effect s1) as (Er & _).
  rewrite Ei in Er. cbn in Er.
  pose proof (setup_grows _ _ _ _ Es) as G1.
  pose proof (resolve_init_grows _ _ _ Ei) as G2.
  apply setup_ok in Es as (_ & _ & _ & (Fs & Fi & Ff) & _).
  cbn in Einfo, Eseed, Eff. rewrite Er in Einfo, Eseed, Eff.
  rewrite Fs, Fi in *. rewrite Ff in Eff.
  exists pr, im, ims. eexists _, _. split; [exact Ep|].
  repeat split; auto.
  destruct (grows_trans _ _ _ _ G1 G2) as (evs & Eg & _).
  unfold new_events. rewrite Et. cbn. rewrite Eg, <- app_assoc.
  rewrite skipn_app, skipn_all, Nat.sub_diag. cbn.
  apply in_or_app. right. now left.
Qed.

Lemma run_calls_keep (cs : list call) st :
  populated (st_root st) ->
  all_succeed weight parse_weight str open_file http_get process_images cs st ->
  same_first_results st
    (run_calls weight parse_weight str open_file http_get process_images cs st).
Proof.
  revert st. induction cs as [|[[args frame] rs] cs IH]; intros st Hp Hall.
  - now repeat split.
  - destruct Hall as ((res & Hres) & Hall). cbn [run_calls].
    set (st1 := snd (run_call weight parse_weight str open_file http_get
                       process_images (args, frame, rs) st)) in *.
    assert (Hgen : same_first_results st st1).
    { unfold st1, run_call in *.
      destruct (generate' frame rs _) as [r st'] eqn:E. cbn in Hres.
      subst r. apply generate_first_results in E
        as (pr & im & ims & h & p & _ & _ & _ & _ & Einfo & Eseed & Eff).
      cbn in Einfo, Eseed, Eff. destruct Hp as (Hs & Hi & Hf).
      destruct (Root.initial_info (st_root st)) eqn:Hi'; [|contradiction].
      destruct (Root.first_frame (st_root st)) eqn:Hf'; [|contradiction].
      unfold same_first_results. cbn. now rewrite Einfo, Eseed, Eff. }
    assert (Hp1 : populated (st_root st1)).
    { destruct Hgen as (Es & Ei & Ef), Hp as (Hs & Hi & Hf).
      unfold populated. now rewrite Es, Ei, Ef. }
    specialize (IH st1 Hp1 Hall).
    destruct Hgen as (Es & Ei & Ef), IH as (Es' & Ei' & Ef').
    unfold same_first_results. now rewrite Es', Ei', Ef'.
Qed.

(** Seed and info are assigned together (lines 180-181) and by nothing
    else, so a root on which they are both empty or both set stays so over
    any call, successful or not. *)
Lemma generate_keeps_seed_with_info (frame : Z) (return_sample : bool) st :
  is_none (Root.initial_info (st_root st))
  = is_none (Root.initial_seed (st_root st)) ->
  is_none (Root.initial_info
             (st_root (snd (generate' frame return_sample st))))
  = is_none (Root.initial_seed
               (st_root (snd (generate' frame return_sample st)))).
Proof.
  intros Hc.
  destruct (generate_cases frame return_sample st)
    as [(e & s1 & Es & Eo)|(s1 & Es & [(e & s2 & Ei & Eo)|
         (init & mi & s2 & Ei & [(Em & e & Ek & Eo)|(Em & Eo)])])].
  - rewrite Eo. cbn. apply setup_err in Es as (_ & _ & _ & (Fs & Fi & _) & _).
    now rewrite Fs, Fi.
  - rewrite Eo. cbn. pose proof (resolve_init_effect s1) as (Er & _).
    rewrite Ei in Er. cbn in Er.
    apply setup_ok in Es as (_ & _ & _ & (Fs & Fi & _) & _).
    now rewrite Er, Fs, Fi.
  - rewrite Eo. cbn. pose proof (resolve_init_effect s1) as (Er & _).
    rewrite Ei in Er. cbn in Er.
    apply setup_ok in Es as (_ & _ & _ & (Fs & Fi & _) & _).
    now rewrite Er, Fs, Fi.
  - pose proof (resolve_init_effect s1) as (Er & _).
    rewrite Ei in Er. cbn in Er.
    apply setup_ok in Es as (_ & _ & _ & (Fs & Fi & _) & _).
    destruct (process_images _ _) as [d|pr]; rewrite Eo.
    + cbn. now rewrite Er, Fs, Fi.
    + destruct ((record_first pr;; results return_sample pr)
                  (submitted init None s2)) as [r st'] eqn:Ef.
      apply finish_effect in Ef as (_ & _ & _ & _ & Einfo & Eseed & _).
      cbn in *. rewrite Einfo, Eseed, Er, Fs, Fi.
      now destruct (Root.initial_info (st_root st)).
Qed.

(** C10.  Take a root whose seed and info are either both empty or both
    set (an empty root in particular) and any non-empty run of calls that
    all succeed.  After the first call the three first-result attributes
    are all set: one that was set before the run holds the same value,
    one that was empty holds what the engine returned to that first call.
    After the whole run, however long, they hold what they held after
    the first call. *)
Theorem first_results_written_once (c : call) (cs : list call) st :
  let run_call' :=
    run_call weight parse_weight str open_file http_get process_images in
  let run_calls' :=
    run_calls weight parse_weight str open_file http_get process_images in
  is_none (Root.initial_info (st_root st))
  = is_none (Root.initial_seed (st_root st)) ->
  all_succeed weight parse_weight str open_file http_get process_images
              (c :: cs) st ->
  let st1 := snd (run_call' c st) in
  let stn := run_calls' (c :: cs) st in
  (forall x, Root.initial_seed (st_root st) = Some x ->
             Root.initial_seed (st_root st1) = Some x)
  /\ (forall x, Root.initial_info (st_root st) = Some x ->
                Root.initial_info (st_root st1) = Some x)
  /\ (forall x, Root.first_frame (st_root st) = Some x ->
                Root.first_frame (st_root st1) = Some x)
  /\ (exists pr history p im ims,
        process_images history p = inr pr
        /\ In (EvDispatch p) (new_events st st1)
        /\ Processed.images pr = im :: ims
        /\ (Root.initial_info (st_root st) = None ->
            Root.initial_seed (st_root st1) = Some (Processed.seed pr)
            /\ Root.initial_info (st_root st1) = Some (Processed.info pr))
        /\ (Root.first_frame (st_root st) = None ->
            Root.first_frame (st_root st1) = Some im))
  /\ populated (st_root st1)
  /\ same_first_results st1 stn.
Proof.
  cbv zeta. intros Hc (Hfirst & Hrest). destruct Hfirst as (res & Hres).
  cbn [run_calls].
  set (st1 := snd (run_call weight parse_weight str open_file http_get
                     process_images c st)) in *.
  assert (Hgen : exists pr im ims history p,
    process_images history p = inr pr
    /\ In (EvDispatch p) (new_events st st1)
    /\ Processed.images pr = im :: ims
    /\ Root.initial_info (st_root st1)
       = match Root.initial_info (st_root st) with
         | Some x => Some x
         | None => Some (Processed.info pr)
         end
    /\ Root.initial_seed (st_root st1)
       = match Root.initial_info (st_root st) with
         | Some _ => Root.initial_seed (st_root st)
         | None => Some (Processed.seed pr)
         end
    /\ Root.first_frame (st_root st1)
       = match Root.first_frame (st_root st) with
         | Some x => Some x
         | None => Some im
         end).
  { unfold st1, run_call in *. destruct c as [[args frame] rs].
    destruct (generate' frame rs _) as [r st'] eqn:E. cbn in Hres.
    subst r. apply generate_first_results in E
      as (pr & im & ims & h & p & Ep & Hin & Eim & _ & Einfo & Eseed & Eff).
    exists pr, im, ims, h, p. cbn in *. auto 10. }
  destruct Hgen as (pr & im & ims & h & p & Ep & Hin & Eim & Einfo & Eseed & Eff).
  assert (Hpop : populated (st_root st1)).
  { unfold populated. rewrite Einfo, Eseed, Eff.
    destruct (Root.initial_info (st_root st)),
             (Root.initial_seed (st_root st)),
             (Root.first_frame (st_root st)); cbn in Hc;
      repeat split; discriminate. }
  repeat split; try (now destruct Hpop as (? & ? & ?)).
  - intros x Hx. rewrite Eseed.
    destruct (Root.initial_info (st_root st)); [exact Hx|].
    rewrite Hx in Hc. discriminate.
  - intros x Hx. now rewrite Einfo, Hx.
  - intros x Hx. now rewrite Eff, Hx.
  - exists pr, h, p, im, ims.
    split; [exact Ep|]. split; [exact Hin|]. split; [exact Eim|]. split.
    + intros Hn. rewrite Eseed, Einfo, Hn. now split.
    + intros Hn. now rewrite Eff, Hn.
  - now apply run_calls_keep.
  - now apply run_calls_keep.
  - now apply run_calls_keep.
Qed.

(** ** Where the code departs from its specification *)

(** The synthetic image of lines 150-151 is built from an array of shape
    (W, H, 3), which PIL reads as H columns by W rows: its width is the
    requested height and its height the requested width. *)
Lemma noise_image_geometry st :
  Args.init_sample (st_args st) = None ->
  usable_init (st_args st) = false ->
  exists im st',
    resolve_init' st = (inr (Some im, None), st')
    /\ im_mode im = RGB
    /\ im_width im = Args.H (st_args st)
    /\ im_height im = Args.W (st_args st).
Proof.
  intros Hs Hu. rewrite (resolve_init_noise st Hs Hu).
  eexists _, _. split; [reflexivity|]. now repeat split.
Qed.

(** With [use_mask] set the mask phase never yields a mask: it stops at
    one of the two assertions or at the read of [init_image.shape]. *)
Lemma mask_functions_never_prepares (init mask_image : option Image) st :
  Args.use_mask (st_args st) = true ->
  exists e, mask_functions' init mask_image st = (inl e, st).
Proof.
  intros Hm. rewrite mask_functions_closed, Hm.
  destruct (is_none (Args.mask_file (st_args st)) && is_none mask_image);
    [eauto|].
  destruct (negb (Args.use_init (st_args st))); [eauto|].
  destruct init; eauto.
Qed.

(** Were the call of lines 159-163 reached with a decoded mask and a
    shape, the factor the user gave as contrast would set the brightness
    and the factor given as brightness would set the contrast. *)
Lemma call_prepare_mask_crosses (args : Args.t) (m : Image)
    (dims : list Z) (h w : nat) st :
  Args.invert_mask args = false ->
  call_prepare_mask' args (VImage m)
    (VTuple (dims ++ [Z.of_nat h; Z.of_nat w])) st
  = (inr (mkImage L (w, h)
            (let base := Convert L (Resize w h (im_pix m)) in
             let p1 :=
               if PrimFloat.eqb (Args.mask_contrast_adjust args) 1%float
               then base
               else Brightness (Args.mask_contrast_adjust args) base in
             if PrimFloat.eqb (Args.mask_brightness_adjust args) 1%float
             then p1
             else Contrast (Args.mask_brightness_adjust args) p1)),
     st).
Proof.
  intros Hi. unfold call_prepare_mask. rewrite Hi.
  now rewrite (prepare_mask_order _ _ _ _ _ _ _
                 (load_mask_latent_image m dims h w st)).
Qed.

End Phases.

(** * The code on concrete inputs *)

Module Runs.
Import Example.

Ltac find_event :=
  repeat (try (left; reflexivity); right).

(** The string functions on the prompts of the specification's examples. *)
Example split_one_marker :
  Str.split "--neg" "A cat --neg dog" = ["A cat "; " dog"].
Proof. reflexivity. Qed.

Example split_no_marker : Str.split "--neg" "A cat" = ["A cat"].
Proof. reflexivity. Qed.

Example search_first_pair :
  Re.math_search "a `1+t` b `` c ` d" = Some ("a ", "`1+t`", " b `` c ` d").
Proof. reflexivity. Qed.

Example search_lone_backtick : Re.math_search "x ` y" = None.
Proof. reflexivity. Qed.

Example sub_three_backtick_groups :
  fst (re_sub (math_repl Z evaluator show 3) "a `1+t` b `` c ` d"
              (world txt2img))
  = inr "a 1.0 b 1.0 c ` d".
Proof. reflexivity. Qed.

(** C2.  A 512 by 768 request with neither sample nor init picture: the
    dispatched request says width 512 and height 768, and its one init
    image, the synthetic noise, is 768 wide and 512 high. *)
Theorem noise_image_is_transposed :
  exists p im,
    In (EvDispatch p) (st_trace (snd (run 0 false (world txt2img))))
    /\ P.width p = 512 /\ P.height p = 768
    /\ P.init_images p = [Some im]
    /\ pix_origin (im_pix im) = FromNoise 0
    /\ im_width im = 768 /\ im_height im = 512.
Proof.
  eexists _, _. split; [vm_compute; find_event|].
  vm_compute. repeat split.
Qed.

(** C3.  A prompt with two markers: line 126 unpacks three parts into two
    names and raises; nothing is dispatched. *)
Theorem two_markers_raise :
  Str.split "--neg" "a --neg b --neg c" = ["a "; " b "; " c"]
  /\ fst (run 0 false (world two_markers))
     = inl (ValueError "too many values to unpack (expected 2)")
  /\ forallb not_dispatch (st_trace (snd (run 0 false (world two_markers))))
     = true.
Proof. vm_compute. repeat split. Qed.

(** C5.  A decoded mask, both factors 1, inversion requested:
    [prepare_mask] raises [NameError] instead of returning the inverted
    mask. *)
Theorem invert_mask_raises :
  prepare_mask disk web (VImage a_mask) (VTuple [1; 4; 64; 64]%Z)
               1%float 1%float true (world masked)
  = (inl (NameError "PIL"), world masked).
Proof. vm_compute. reflexivity. Qed.

(** C6.  A mask file and an init picture, with the mask enabled: the call
    stops at [init_image.shape]; the request gets no mask and nothing is
    dispatched. *)
Theorem masked_request_fails :
  fst (run 0 false (world masked)) = inl (AttributeError "Image" "shape")
  /\ P.mask (Root.p (st_root (snd (run 0 false (world masked))))) = None
  /\ forallb not_dispatch (st_trace (snd (run 0 false (world masked))))
     = true.
Proof. vm_compute. repeat split. Qed.

(** The call of lines 159-163 on the same arguments, brightness 2 and
    contrast 1, had it been reached with a shape: the mask comes back
    with its contrast doubled and its brightness untouched. *)
Lemma masked_factors_crossed :
  Args.mask_brightness_adjust masked = 2%float
  /\ Args.mask_contrast_adjust masked = 1%float
  /\ call_prepare_mask disk web masked (VImage a_mask)
       (VTuple [64; 64]%Z) (world masked)
     = (inr (mkImage L (64, 64)
               (Contrast 2%float
                  (Convert L (Resize 64 64 (File "mask.png"))))),
        world masked).
Proof. vm_compute. repeat split. Qed.

(** ** The theorems at work *)



Lemma precondition_errors_witness :
  Args.prompt (st_args (world no_prompt)) = None
  /\ run 0 false (world no_prompt)
     = (inl (AssertionError EmptyString), world no_prompt).
Proof.
  split; [reflexivity|].
  apply (proj1 (proj2 (precondition_errors Z evaluator show disk web engine
                         0%Z false (world no_prompt)))).
  reflexivity.
Defined.

Lemma strength_policy_applied_witness :
  exists p,
    In (EvDispatch p)
       (new_events (world txt2img) (snd (run 0 false (world txt2img))))
    /\ P.denoising_strength p = 0%float.
Proof.
  eexists. split; [vm_compute; find_event|].
  apply (proj2 (strength_policy_applied Z evaluator show disk web engine
                  (world txt2img)) 0%Z false).
  vm_compute; find_event.
Defined.


Lemma first_results_written_once_witness :
  let first := (img2img, 0%Z, false) in
  let later := [(txt2img, 1%Z, false); (txt2img, 2%Z, false)] in
  is_none (Root.initial_info (st_root (world img2img)))
  = is_none (Root.initial_seed (st_root (world img2img)))
  /\ all_succeed Z evaluator show disk web engine (first :: later)
                 (world img2img)
  /\ same_first_results
       (snd (run_call Z evaluator show disk web engine first
                      (world img2img)))
       (run_calls Z evaluator show disk web engine (first :: later)
                  (world img2img)).
Proof.
  cbv zeta.
  assert (H1 : is_none (Root.initial_info (st_root (world img2img)))
               = is_none (Root.initial_seed (st_root (world img2img))))
    by reflexivity.
  assert (H2 : all_succeed Z evaluator show disk web engine
                 [(img2img, 0%Z, false); (txt2img, 1%Z, false);
                  (txt2img, 2%Z, false)] (world img2img)).
  { vm_compute. repeat (split; [eexists; reflexivity|]). exact I. }
  split; [exact H1|]. split; [exact H2|].
  exact (proj2 (proj2 (proj2 (proj2 (proj2
           (first_results_written_once Z evaluator show disk web engine
              _ _ (world img2img) H1 H2)))))).
Defined.

End Runs.


(** * Beyond the claims *)

Section Further.

Variable weight : Type.
Variable parse_weight : string -> Z -> string + weight.
Variable str : weight -> string.
Variable open_file : string -> string + (mode * (nat * nat)).
Variable http_get : string -> string + (mode * (nat * nat)).
Variable process_images : list Event -> P.t -> string + Processed.t.

Local Abbreviation repl := (math_repl weight parse_weight str).
Local Abbreviation load_img' := (load_img open_file http_get).
Local Abbreviation load_mask_latent' := (load_mask_latent open_file http_get).
Local Abbreviation prepare_mask' := (prepare_mask open_file http_get).
Local Abbreviation setup' := (setup weight parse_weight str).
Local Abbreviation resolve_init' := (resolve_init open_file http_get).
Local Abbreviation mask_functions' := (mask_functions open_file http_get).
Local Abbreviation fetch' := (fetch open_file http_get).
Local Abbreviation generate' :=
  (generate weight parse_weight str open_file http_get process_images).

(** ** [load_mask_latent] and [prepare_mask] (lines 51-89) *)

Lemma load_mask_latent_closed (mask_input shape : pyval) st :
  load_mask_latent' mask_input shape st
  = match mask_input with
    | VStr path =>
        match fetch' path with
        | inl d => (inl (CollaboratorError (fetcher path) d),
                    log (fetch_event path) st)
        | inr _ =>
            (match trailing_dims shape with
             | inl e => inl e
             | inr (w, h) =>
                 inr (mkImage L (w, h)
                        (Convert L
                           (Resize w h (Convert RGBA (fetched_from path)))))
             end,
             log (fetch_event path) st)
        end
    | VImage m =>
        (match trailing_dims shape with
         | inl e => inl e
         | inr (w, h) => inr (mkImage L (w, h) (Convert L (Resize w h (im_pix m))))
         end,
         st)
    | _ => (inl (Exception "mask_input must be a PIL image or a file name"), st)
    end.
Proof.
  unfold load_mask_latent, trailing_dims.
  destruct mask_input as [| z | x | path | items | m]; try reflexivity.
  - unfold bind at 1. unfold bind at 1. rewrite open_closed.
    destruct (fetch' path) as [d|[md size]]; [reflexivity|].
    unfold bind, lift, ret. cbn.
    destruct (subscript_from_end shape 1) as [e|w]; [reflexivity|].
    destruct (subscript_from_end shape 2) as [e|h]; [reflexivity|].
    destruct (as_dimension w) as [e|w']; [reflexivity|].
    destruct (as_dimension h) as [e|h']; reflexivity.
  - unfold bind, lift, ret. cbn.
    destruct (subscript_from_end shape 1) as [e|w]; [reflexivity|].
    destruct (subscript_from_end shape 2) as [e|h]; [reflexivity|].
    destruct (as_dimension w) as [e|w']; [reflexivity|].
    destruct (as_dimension h) as [e|h']; reflexivity.
Qed.


Lemma trailing_dims_short (dims : list Z) :
  List.length dims < 2 ->
  trailing_dims (VTuple dims) = inl (IndexError "tuple index out of range").
Proof.
  destruct dims as [|x [|y l]]; cbn; intros H; try reflexivity; lia.
Qed.


(** X2.  A mask input that is neither a string nor a decoded image is
    refused with the exception of line 63 before anything else happens:
    nothing is fetched, the shape is not looked at, and [prepare_mask]
    passes the exception on whatever the factors and the invert flag. *)
Theorem mask_input_rejected (mask_input shape : pyval) (b c : float)
    (invert : bool) st :
  (forall path, mask_input <> VStr path) ->
  (forall im, mask_input <> VImage im) ->
  load_mask_latent' mask_input shape st
  = (inl (Exception "mask_input must be a PIL image or a file name"), st)
  /\ prepare_mask' mask_input shape b c invert st
     = (inl (Exception "mask_input must be a PIL image or a file name"), st).
Proof.
  intros Hs Hi.
  assert (E : load_mask_latent' mask_input shape st
              = (inl (Exception
                        "mask_input must be a PIL image or a file name"), st)).
  { rewrite load_mask_latent_closed.
    destruct mask_input as [| z | x | path | items | m]; try reflexivity.
    - now elim (Hs path).
    - now elim (Hi m). }
  split; [exact E|]. now rewrite prepare_mask_closed, E.
Qed.

(** X3.  A shape with fewer than two entries raises [IndexError] at line
    65.  A decoded mask leaves no trace of the attempt; a path or URL has
    been fetched by then, so the fetch is on record though no mask
    results. *)
Theorem mask_shape_too_short (dims : list Z) st :
  List.length dims < 2 ->
  (forall m,
     load_mask_latent' (VImage m) (VTuple dims) st
     = (inl (IndexError "tuple index out of range"), st))
  /\ (forall path md size,
        fetch' path = inr (md, size) ->
        load_mask_latent' (VStr path) (VTuple dims) st
        = (inl (IndexError "tuple index out of range"),
           log (fetch_event path) st)).
Proof.
  intros Hl. split.
  - intros m. now rewrite load_mask_latent_closed, trailing_dims_short.
  - intros path md size Hf.
    now rewrite load_mask_latent_closed, Hf, trailing_dims_short.
Qed.

Lemma prefix_iff (pre s : string) :
  String.prefix pre s = true <-> exists rest, s = pre ++ rest.
Proof.
  split.
  - intros H. eexists. now apply StrFacts.prefix_split.
  - intros (rest & ->). apply StrFacts.prefix_append.
Qed.

(** X4.  A reference goes to the network exactly when it begins with
    http:// or https:// (in lower case); any other string is opened as a
    local path.  [load_img] and [load_mask_latent] both make exactly one
    such attempt per call, succeed or fail, and never try the other
    route. *)
Theorem reference_routing (path : string) (shape : nat * nat)
    (alpha : bool) (mask_shape : pyval) st :
  (is_url path = true <->
   exists rest, path = "http://" ++ rest \/ path = "https://" ++ rest)
  /\ new_events st (snd (load_img' path shape alpha st))
     = [if is_url path then EvGet path else EvOpen path]
  /\ new_events st (snd (load_mask_latent' (VStr path) mask_shape st))
     = [if is_url path then EvGet path else EvOpen path].
Proof.
  split; [|split].
  - unfold is_url, Str.startswith. rewrite orb_true_iff, !prefix_iff.
    split.
    + intros [(r & E)|(r & E)]; exists r; auto.
    + intros (r & [E|E]); [left|right]; now exists r.
  - rewrite load_img_closed.
    destruct (fetch' path) as [d|[md size]]; now apply new_events_app.
  - rewrite load_mask_latent_closed.
    destruct (fetch' path) as [d|[md size]]; now apply new_events_app.
Qed.

(** ** The negative-prompt marker (lines 124-129) *)

Lemma append_cut (u v w z : string) :
  u ++ v = w ++ z -> String.length u <= String.length w ->
  exists x, w = u ++ x /\ v = x ++ z.
Proof.
  revert w. induction u as [|c u IH]; intros w E Hl.
  - exists w. now split.
  - destruct w as [|c' w]; [simpl in Hl; lia|].
    simpl in E. injection E as <- E. simpl in Hl.
    destruct (IH w E ltac:(lia)) as (x & -> & ->). now exists x.
Qed.

Lemma two_markers_found (a b c : string) :
  exists a0 b0,
    Str.find "--neg" (a ++ "--neg" ++ b ++ "--neg" ++ c) = Some (a0, b0)
    /\ Str.find "--neg" b0 <> None.
Proof.
  set (s := a ++ "--neg" ++ b ++ "--neg" ++ c).
  destruct (Str.find "--neg" s) as [[a0 b0]|] eqn:Ef.
  2:{ exfalso. exact (StrFacts.find_none _ _ Ef a _ eq_refl). }
  exists a0, b0. split; [reflexivity|].
  pose proof (StrFacts.find_sound _ _ _ _ Ef) as Es. unfold s in Es.
  assert (Hle : String.length a0 <= String.length a).
  { destruct (Nat.le_gt_cases (String.length a0) (String.length a)) as [H|H];
      [exact H|exfalso].
    destruct (append_cut _ _ _ _ Es ltac:(lia)) as (x & Ea & Ex).
    assert (Hx : x <> EmptyString).
    { intros ->. rewrite Ea, StrFacts.length_append in H. simpl in H. lia. }
    pose proof (StrFacts.find_leftmost _ _ _ _ Ef a x Ea Hx) as Hp.
    change (x ++ "--neg" ++ b0) with (x ++ String "-" (String "-" (String "n"
             (String "e" (String "g" b0))))) in Hp.
    change ("--neg" ++ b ++ "--neg" ++ c) with
      (String "-" (String "-" (String "n" (String "e" (String "g"
         (b ++ "--neg" ++ c)))))) in Ex.
    change (x ++ "--neg" ++ b0) with (x ++ String "-" (String "-" (String "n"
             (String "e" (String "g" b0))))) in Ex.
    rewrite <- Ex in Hp.
    change (String "-" (String "-" (String "n" (String "e" (String "g"
              (b ++ "--neg" ++ c))))))
      with ("--neg" ++ (b ++ "--neg" ++ c)) in Hp.
    now rewrite StrFacts.prefix_append in Hp. }
  assert (Es' : (a0 ++ "--neg") ++ b0 = (a ++ "--neg" ++ b) ++ "--neg" ++ c).
  { rewrite !StrFacts.append_assoc. symmetry. exact Es. }
  destruct (append_cut _ _ _ _ Es') as (x & _ & Ex).
  { rewrite !StrFacts.length_append. lia. }
  intros Hn. exact (StrFacts.find_none _ _ Hn x c Ex).
Qed.

(** X5.  Lines 124-129 raise [ValueError] exactly when the evaluated
    prompt holds two markers, one after the other, and then leave the
    request alone.  In every other case both prompts are assigned and the
    evaluated prompt can be put together again from them: it is the
    positive prompt alone, marker-free, with an empty negative prompt, or
    the positive prompt, one marker and the negative prompt. *)
Theorem split_prompt_outcome (s : string) st :
  let twice := exists a b c, s = a ++ "--neg" ++ b ++ "--neg" ++ c in
  (split_prompt s st
   = (inl (ValueError "too many values to unpack (expected 2)"), st)
   <-> twice)
  /\ (~ twice ->
      exists pos neg,
        split_prompt s st = set_p (P.set_prompts pos neg) st
        /\ ((s = pos /\ neg = EmptyString
             /\ forall a b, s <> a ++ "--neg" ++ b)
            \/ s = pos ++ "--neg" ++ neg)).
Proof.
  cbv zeta.
  assert (Cases :
    (Str.find "--neg" s = None)
    \/ (exists a b, Str.find "--neg" s = Some (a, b)
                    /\ Str.find "--neg" b = None)
    \/ (exists a b, Str.find "--neg" s = Some (a, b)
                    /\ Str.find "--neg" b <> None)).
  { destruct (Str.find "--neg" s) as [[a b]|] eqn:E; [|now left].
    right. destruct (Str.find "--neg" b) eqn:E'.
    - right. exists a, b. split; [reflexivity | congruence].
    - left. now exists a, b. }
  assert (Twice : (exists a b c, s = a ++ "--neg" ++ b ++ "--neg" ++ c) ->
    exists a b, Str.find "--neg" s = Some (a, b)
                /\ Str.find "--neg" b <> None).
  { intros (a & b & c & ->). apply two_markers_found. }
  split; [split|].
  - intros E.
    destruct Cases as [Hn|[(a & b & Hf & Hb)|(a & b & Hf & Hb)]].
    + rewrite (split_prompt_no_marker s st Hn) in E. discriminate.
    + rewrite (split_prompt_one_marker s a b st Hf Hb) in E. discriminate.
    + destruct (Str.find "--neg" b) as [[b1 c]|] eqn:Eb; [|congruence].
      apply StrFacts.find_sound in Hf, Eb. exists a, b1, c.
      now rewrite Hf, Eb.
  - intros H. destruct (Twice H) as (a & b & Hf & Hb).
    now apply (split_prompt_many s a b).
  - intros Hno.
    destruct Cases as [Hn|[(a & b & Hf & Hb)|(a & b & Hf & Hb)]].
    + exists s, EmptyString. split; [now apply split_prompt_no_marker|].
      left. repeat split. now apply StrFacts.find_none.
    + exists a, b. split; [now apply split_prompt_one_marker|].
      right. now apply StrFacts.find_sound.
    + exfalso. apply Hno.
      destruct (Str.find "--neg" b) as [[b1 c]|] eqn:Eb; [|congruence].
      apply StrFacts.find_sound in Hf, Eb. exists a, b1, c.
      now rewrite Hf, Eb.
Qed.

(** ** A failing expression (lines 93-103) *)

Lemma re_sub_fuel_failure (frame : Z) (n : nat) (s : string) st e st1 :
  re_sub_fuel n (repl frame) s st = (inl e, st1) ->
  exists evs m d,
    st_trace st1 = (st_trace st ++ evs ++ [EvEval m frame])%list
    /\ forallb is_eval evs = true
    /\ parse_weight m frame = inl d
    /\ e = CollaboratorError "parse_weight" d.
Proof.
  revert s st e st1. induction n as [|n IH]; intros s st e st1;
    cbn [re_sub_fuel]; [discriminate|].
  destruct (Re.math_search s) as [[[pre m] post]|]; [|discriminate].
  unfold math_repl, bind, emit, answer, ret, raise.
  destruct (parse_weight m frame) as [d|w] eqn:Ep; cbn.
  - intros [= <- <-]. exists [], m, d. cbn. now repeat split.
  - match goal with
    | |- context [re_sub_fuel n ?f post ?s0] =>
        destruct (re_sub_fuel n f post s0) as [[e0|out] s2] eqn:E
    end; [|discriminate].
    intros [= <- <-].
    apply IH in E as (evs & m' & d & Et & Fe & Ep' & ->). cbn in Et.
    exists (EvEval m frame :: evs), m', d.
    repeat split; auto. now rewrite Et, <- app_assoc.
Qed.

(** X6.  When an expression of the prompt cannot be evaluated, the call
    ends with the evaluator's failure.  The evaluator was called on the
    expressions up to and including the failing one and on none after it,
    and nothing else has happened: no directory was created, [root] (so the
    request object too) and [args] are as they were, no picture was
    touched. *)
Theorem evaluator_failure_aborts (frame : Z) (return_sample : bool)
    (s : string) st e st1 :
  Args.prompt (st_args st) = Some s ->
  re_sub (repl frame) s st = (inl e, st1) ->
  generate' frame return_sample st = (inl e, st1)
  /\ st_root st1 = st_root st /\ st_args st1 = st_args st
  /\ st_draws st1 = st_draws st
  /\ exists evs m d,
       new_events st st1 = (evs ++ [EvEval m frame])%list
       /\ forallb is_eval evs = true
       /\ parse_weight m frame = inl d
       /\ e = CollaboratorError "parse_weight" d.
Proof.
  intros Hp E. split.
  - unfold generate, setup. unfold bind at 1. unfold bind at 1. cbn.
    rewrite Hp. cbn. unfold bind at 1. now rewrite E.
  - pose proof (re_sub_effect _ _ _ frame s st _ _ E) as (Ea & Er & Ed & _).
    repeat split; auto.
    apply re_sub_fuel_failure in E as (evs & m & d & Et & Fe & Ep & ->).
    exists evs, m, d. repeat split; auto. now apply new_events_app.
Qed.

(** ** More on the phases *)

Lemma setup_request (frame : Z) st s1 :
  setup' frame st = (inr tt, s1) ->
  let args := st_args st in
  let p := Root.p (st_root s1) in
  Root.outpath_samples (st_root s1) = Root.outpath_samples (st_root st)
  /\ P.batch_size p = Args.n_samples args
  /\ P.width p = Args.W args /\ P.height p = Args.H args
  /\ P.steps p = Args.steps args /\ P.seed p = Args.seed args
  /\ P.do_not_save_samples p = negb (Args.save_samples args)
  /\ P.do_not_save_grid p = negb (Args.make_grid args)
  /\ P.sampler_index p = Args.sampler args
  /\ P.mask_blur p = Args.mask_overlay_blur args
  /\ P.n_iter p = 1%Z
  /\ P.cfg_scale p = Args.scale args
  /\ P.outpath_samples p = Root.outpath_samples (st_root st)
  /\ P.outpath_grids p = Root.outpath_samples (st_root st)
  /\ P.extra_generation_params p
     = dict_set "Mask blur" (Args.mask_overlay_blur args)
         (P.extra_generation_params (Root.p (st_root st))).
Proof.
  unfold setup. unfold bind at 1. cbn.
  destruct (Args.prompt (st_args st)) as [s|] eqn:Ep; cbn; [|discriminate].
  unfold bind at 1. cbn. unfold bind at 1.
  destruct (re_sub (repl frame) s st) as [[e|parsed] st0] eqn:Es;
    [discriminate|].
  apply (re_sub_effect weight parse_weight str) in Es as (Ea & Er & _).
  match goal with
  | |- context [split_prompt parsed ?s0] =>
      destruct (split_prompt_cases parsed s0) as [E|(pos & neg & E)];
      rewrite E; [discriminate|]
  end.
  cbn -[strength_policy]. rewrite strength_policy_closed. cbn.
  rewrite Ea, Er.
  destruct (policy_applies (st_args st)); intros [= <-]; cbn;
    repeat split.
Qed.

Lemma resolve_init_args st :
  let out := resolve_init' st in
  (st_args (snd out) = st_args st
   \/ exists t arr,
        Args.init_sample (st_args st) = Some (Tensor t)
        /\ st_args (snd out)
           = Args.set_init_sample (Some (Array arr)) (st_args st))
  /\ (forall init mi,
        fst out = inr (init, mi) ->
        Args.init_sample (st_args st) <> None ->
        exists arr,
          Args.init_sample (st_args (snd out)) = Some (Array arr)).
Proof.
  cbv zeta. destruct (Args.init_sample (st_args st)) as [s0|] eqn:Hs.
  - unfold resolve_init, bind, get_args. cbn. rewrite Hs.
    destruct s0 as [t|a]; cbn; [|split; [now left | discriminate]].
    unfold Np.rearrange_chw_hwc.
    destruct (a_shape t) as [|c [|h [|w [|x l]]]] eqn:Esh; cbn;
      try (split; [now left | discriminate]).
    unfold PIL.fromarray; cbn.
    destruct c as [|[|[|[|[|c]]]]]; cbn;
      (split; [right; eexists t, _; split; reflexivity|]);
      try discriminate; intros init mi _ _; eexists; reflexivity.
  - destruct (usable_init (st_args st)) eqn:Hu.
    + destruct (usable_init_path _ Hu) as (Hi & path & Hp & Hne).
      rewrite (resolve_init_explicit _ _ st path Hs Hi Hp Hne).
      rewrite load_img_closed.
      destruct (fetch' path) as [d|[m size]]; cbn;
        (split; [now left|]); intros init mi _ H; now elim H.
    + rewrite (resolve_init_noise _ _ st Hs Hu). cbn.
      split; [now left|]. intros init mi _ H. now elim H.
Qed.

Lemma resolve_init_array st (a : ndarray) :
  Args.init_sample (st_args st) = Some (Array a) ->
  resolve_init' st = (inl (AttributeError "numpy.ndarray" "cpu"), st).
Proof.
  intros Hs. unfold resolve_init, bind, get_args. cbn. now rewrite Hs.
Qed.

Lemma finish_outcome (return_sample : bool) (pr : Processed.t) st :
  let out := (record_first pr ;; results return_sample pr) st in
  match Processed.images pr with
  | [] =>
      fst out
      = (if is_none (Root.first_frame (st_root st)) || negb return_sample
         then inl (IndexError "list index out of range")
         else inl (UnboundLocalError "image"))
      /\ Root.first_frame (st_root (snd out)) = Root.first_frame (st_root st)
  | im :: _ =>
      fst out
      = (if return_sample then inl (UnboundLocalError "image")
         else inr [im])
      /\ Root.first_frame (st_root (snd out))
         = match Root.first_frame (st_root st) with
           | Some x => Some x
           | None => Some im
           end
  end.
Proof.
  cbv zeta.
  unfold record_first, results, bind, get_root, set_root, lift, ret, raise.
  cbn.
  destruct (Root.initial_info (st_root st)) as [i|] eqn:Ei; cbn;
    destruct (Root.first_frame (st_root st)) as [f|] eqn:Ef; cbn;
    destruct (Processed.images pr) as [|im ims]; cbn;
    destruct return_sample; cbn; now split.
Qed.

(** What a call that reached the engine comes to. *)
Lemma generate_after_dispatch (frame : Z) (return_sample : bool) st p :
  In (EvDispatch p)
     (new_events st (snd (generate' frame return_sample st))) ->
  exists s1 init mi s2,
    setup' frame st = (inr tt, s1)
    /\ resolve_init' s1 = (inr (init, mi), s2)
    /\ Args.use_mask (st_args s2) = false
    /\ p = request init None s2
    /\ grows not_dispatch st s2
    /\ generate' frame return_sample st
       = match process_images (st_trace s2 ++ [EvDispatch p]) p with
         | inl d => (inl (CollaboratorError "process_images" d),
                     submitted init None s2)
         | inr pr => (record_first pr ;; results return_sample pr)
                       (submitted init None s2)
         end.
Proof.
  intros Hin.
  apply generate_dispatched in Hin
    as (s1 & init & mi & s2 & Es & Ei & Em & -> & _).
  exists s1, init, mi, s2. repeat split; auto.
  - eapply grows_trans; eauto using setup_grows, resolve_init_grows.
  - destruct (generate_cases weight parse_weight str open_file http_get
                process_images frame return_sample st)
      as [(e & s1' & Es' & Eo)|(s1' & Es' & [(e & s2' & Ei' & Eo)|
           (init' & mi' & s2' & Ei' & [(Em' & e & Ek & Eo)|(Em' & Eo)])])];
      rewrite Es in Es'; try discriminate; injection Es' as <-;
      rewrite Ei in Ei'; try discriminate; injection Ei' as <- <- <-;
      try congruence.
    cbn [submitted st_trace] in Eo.
    destruct (process_images _ _) as [d|pr]; exact Eo.
Qed.

Lemma filter_not_dispatch (evs : list Event) :
  forallb not_dispatch evs = true -> filter is_dispatch evs = [].
Proof.
  induction evs as [|e evs IH]; cbn; [reflexivity|].
  intros H. apply andb_true_iff in H as [He Hr]. unfold not_dispatch in He.
  destruct (is_dispatch e); [discriminate | now apply IH].
Qed.

(** ** What a call does to [args] *)

Lemma generate_args (frame : Z) (return_sample : bool) st :
  let a := st_args st in
  let a' := st_args (snd (generate' frame return_sample st)) in
  exists a1,
    (a1 = a \/ (policy_applies a = true /\ a1 = Args.set_strength 0%float a))
    /\ (a' = a1
        \/ exists t arr,
             Args.init_sample a = Some (Tensor t)
             /\ a' = Args.set_init_sample (Some (Array arr)) a1).
Proof.
  cbv zeta.
  assert (After : forall s1 r s2,
    setup' frame st = (inr tt, s1) -> resolve_init' s1 = (r, s2) ->
    exists a1,
      (a1 = st_args st
       \/ (policy_applies (st_args st) = true
           /\ a1 = Args.set_strength 0%float (st_args st)))
      /\ (st_args s2 = a1
          \/ exists t arr,
               Args.init_sample (st_args st) = Some (Tensor t)
               /\ st_args s2 = Args.set_init_sample (Some (Array arr)) a1)).
  { intros s1 r s2 Es Ei.
    apply setup_ok in Es as (_ & Ea & _).
    pose proof (resolve_init_args s1) as ([E|(t & arr & Et & E)] & _);
      rewrite Ei in E; cbn in E.
    - exists (st_args s1). split; [|now left].
      rewrite Ea. destruct (policy_applies (st_args st)); auto.
    - exists (st_args s1). split.
      + rewrite Ea. destruct (policy_applies (st_args st)); auto.
      + right. exists t, arr. split; [|exact E].
        rewrite Ea in Et. now destruct (policy_applies (st_args st)). }
  destruct (generate_cases weight parse_weight str open_file http_get
              process_images frame return_sample st)
    as [(e & s1 & Es & Eo)|(s1 & Es & [(e & s2 & Ei & Eo)|
         (init & mi & s2 & Ei & [(Em & e & Ek & Eo)|(Em & Eo)])])].
  - rewrite Eo. cbn. apply setup_err in Es as (_ & Ea & _).
    exists (st_args st). split; [now left|]. now left.
  - rewrite Eo. cbn. eapply After; eauto.
  - rewrite Eo. cbn. eapply After; eauto.
  - destruct (After _ _ _ Es Ei) as (a1 & H1 & H2).
    exists a1. split; [exact H1|].
    destruct (process_images _ _) as [d|pr]; rewrite Eo; [exact H2|].
    destruct ((record_first pr;; results return_sample pr)
                (submitted init None s2)) as [r st'] eqn:Ef.
    apply finish_effect in Ef as (Ea & _). cbn. now rewrite Ea.
Qed.

(** X7.  Whatever way a call ends, [args] differs from what was passed in
    at most in [strength] and [init_sample]; all other attributes are as
    the caller set them.  [strength] changes only to zero and only under
    the condition of line 131; [init_sample] changes only from a tensor to
    a numpy array. *)
Theorem args_touched_in_two_places (frame : Z) (return_sample : bool) st :
  let a := st_args st in
  let a' := st_args (snd (generate' frame return_sample st)) in
  a' = Args.set_init_sample (Args.init_sample a')
         (Args.set_strength (Args.strength a') a)
  /\ (Args.strength a' = Args.strength a
      \/ (policy_applies a = true /\ Args.strength a' = 0%float))
  /\ (Args.init_sample a' = Args.init_sample a
      \/ exists t arr,
           Args.init_sample a = Some (Tensor t)
           /\ Args.init_sample a' = Some (Array arr)).
Proof.
  cbv zeta.
  destruct (generate_args frame return_sample st)
    as (a1 & [->|(Hp & ->)] & [E|(t & arr & Et & E)]);
    rewrite E; destruct (st_args st); cbn in *; repeat split; eauto.
Qed.

(** X8.  After a successful call that was given a sample, [args] cannot
    serve a second call as it stands: [args.init_sample] now holds a numpy
    array, and any further call on it, whatever the frame, either fails
    in the prompt phase or raises [AttributeError] for [cpu] at line 141.
    It returns nothing and dispatches nothing. *)
Theorem sample_args_not_reusable (frame : Z) (return_sample : bool)
    st res st' (frame2 : Z) (return_sample2 : bool) :
  Args.init_sample (st_args st) <> None ->
  generate' frame return_sample st = (inr res, st') ->
  (exists arr, Args.init_sample (st_args st') = Some (Array arr))
  /\ (exists e, fst (generate' frame2 return_sample2 st') = inl e)
  /\ ((exists s1 e, setup' frame2 st' = (inl e, s1))
      \/ fst (generate' frame2 return_sample2 st')
         = inl (AttributeError "numpy.ndarray" "cpu"))
  /\ filter is_dispatch
        (new_events st' (snd (generate' frame2 return_sample2 st'))) = [].
Proof.
  intros Hs E.
  assert (Harr : exists arr, Args.init_sample (st_args st') = Some (Array arr)).
  { destruct (generate_cases weight parse_weight str open_file http_get
                process_images frame return_sample st)
      as [(e & s1 & Es & Eo)|(s1 & Es & [(e & s2 & Ei & Eo)|
           (init & mi & s2 & Ei & [(Em & e & Ek & Eo)|(Em & Eo)])])];
      try (rewrite E in Eo; discriminate).
    destruct (process_images _ _) as [d|pr];
      [rewrite E in Eo; discriminate|].
    rewrite E in Eo. symmetry in Eo.
    apply finish_effect in Eo as (Ea & _). cbn in Ea. rewrite Ea.
    pose proof (resolve_init_args s1) as (_ & H).
    rewrite Ei in H. cbn in H. apply (H _ _ eq_refl).
    apply setup_ok in Es as (_ & Es & _). rewrite Es.
    now destruct (policy_applies (st_args st)). }
  split; [exact Harr|]. destruct Harr as (arr & Harr).
  assert (Second :
    (exists s1 e, setup' frame2 st' = (inl e, s1)
                  /\ generate' frame2 return_sample2 st' = (inl e, s1))
    \/ (exists s1, setup' frame2 st' = (inr tt, s1)
                   /\ generate' frame2 return_sample2 st'
                      = (inl (AttributeError "numpy.ndarray" "cpu"), s1))).
  { destruct (setup' frame2 st') as [[e|[]] s1] eqn:Es.
    - left. exists s1, e. split; [reflexivity|].
      unfold generate. now rewrite (bind_err _ _ _ _ _ Es).
    - right. exists s1. split; [reflexivity|].
      unfold generate. rewrite (bind_ok _ _ _ _ _ Es).
      assert (Ha : Args.init_sample (st_args s1) = Some (Array arr)).
      { apply setup_ok in Es as (_ & Ea & _). rewrite Ea.
        now destruct (policy_applies (st_args st')). }
      now rewrite (bind_err _ _ _ _ _ (resolve_init_array s1 arr Ha)). }
  destruct Second as [(s1 & e & Es & Eg)|(s1 & Es & Eg)]; rewrite Eg; cbn.
  - split; [eauto|]. split; [left; eauto|].
    apply filter_not_dispatch, grows_new_events. eapply setup_grows; eauto.
  - split; [eauto|]. split; [now right|].
    apply filter_not_dispatch, grows_new_events. eapply setup_grows; eauto.
Qed.

(** ** What reaches the engine, and what comes back *)

(** X9.  A call dispatches at most one request.  When it returns, it has
    dispatched exactly one, namely [root.p] as the call leaves it; the
    engine answered that request with at least one image, and the result
    is the one-element list holding the first of them. *)
Theorem one_request_per_call (frame : Z) (return_sample : bool) st :
  let out := generate' frame return_sample st in
  let sent := filter is_dispatch (new_events st (snd out)) in
  List.length sent <= 1
  /\ forall res,
       fst out = inr res ->
       sent = [EvDispatch (Root.p (st_root (snd out)))]
       /\ exists pr im ims,
            process_images (st_trace (snd out)) (Root.p (st_root (snd out)))
            = inr pr
            /\ Processed.images pr = im :: ims /\ res = [im].
Proof.
  cbv zeta.
  destruct (generate_cases weight parse_weight str open_file http_get
              process_images frame return_sample st)
    as [(e & s1 & Es & Eo)|(s1 & Es & [(e & s2 & Ei & Eo)|
         (init & mi & s2 & Ei & [(Em & e & Ek & Eo)|(Em & Eo)])])].
  - rewrite Eo. cbn. split; [|discriminate].
    rewrite filter_not_dispatch; [cbn; lia|].
    apply grows_new_events. eapply setup_grows; eauto.
  - rewrite Eo. cbn. split; [|discriminate].
    rewrite filter_not_dispatch; [cbn; lia|]. apply grows_new_events.
    eapply grows_trans; eauto using setup_grows, resolve_init_grows.
  - rewrite Eo. cbn. split; [|discriminate].
    rewrite filter_not_dispatch; [cbn; lia|]. apply grows_new_events.
    eapply grows_trans; eauto using setup_grows, resolve_init_grows.
  - assert (G : grows not_dispatch st s2)
      by (eapply grows_trans; eauto using setup_grows, resolve_init_grows).
    destruct G as (evs & Eg & F).
    assert (Sent : forall stf,
      st_trace stf = st_trace (submitted init None s2) ->
      filter is_dispatch (new_events st stf)
      = [EvDispatch (request init None s2)]).
    { intros stf Et.
      rewrite (new_events_app st stf
                 (evs ++ [EvDispatch (request init None s2)])).
      - rewrite filter_app, (filter_not_dispatch _ F). reflexivity.
      - rewrite Et. cbn. now rewrite Eg, <- app_assoc. }
    destruct (process_images _ _) as [d|pr] eqn:Ep; rewrite Eo.
    + cbn [fst snd]. rewrite (Sent _ eq_refl). split; [cbn; lia|discriminate].
    + destruct ((record_first pr;; results return_sample pr)
                  (submitted init None s2)) as [r st'] eqn:Ef.
      pose proof (finish_effect _ _ _ _ _ Ef)
        as (_ & Et & _ & Erp & _ & _ & _ & Hres).
      cbn [fst snd]. rewrite (Sent _ Et). split; [cbn; lia|].
      intros res ->. destruct (Hres _ eq_refl) as (_ & im & ims & Ei' & -> & _).
      rewrite Erp, Et. cbn [submitted st_root st_trace Root.p Root.set_p].
      split; [reflexivity|]. exists pr, im, ims. now repeat split.
Qed.

(** X10.  With [return_sample] set the call never returns: line 187
    reads the local [image] before any assignment to it.  Everything up to
    there has been done all the same: if the engine was reached and
    answered with at least one image, the request has been dispatched, the
    info and the first frame are on record in [root], and the call then
    raises [UnboundLocalError]. *)
Theorem return_sample_never_returns (frame : Z) st :
  let out := generate' frame true st in
  (exists e, fst out = inl e)
  /\ forall p pr im ims,
       In (EvDispatch p) (new_events st (snd out)) ->
       process_images (st_trace (snd out)) p = inr pr ->
       Processed.images pr = im :: ims ->
       fst out = inl (UnboundLocalError "image")
       /\ Root.initial_info (st_root (snd out)) <> None
       /\ Root.first_frame (st_root (snd out)) <> None.
Proof.
  cbv zeta. split.
  - destruct (generate' frame true st) as [[e0|res] st'] eqn:E;
      [cbn; eauto|].
    exfalso.
    destruct (generate_cases weight parse_weight str open_file http_get
                process_images frame true st)
      as [(e & s1 & Es & Eo)|(s1 & Es & [(e & s2 & Ei & Eo)|
           (init & mi & s2 & Ei & [(Em & e & Ek & Eo)|(Em & Eo)])])];
      try (rewrite E in Eo; discriminate).
    destruct (process_images _ _) as [d|pr];
      [rewrite E in Eo; discriminate|].
    rewrite E in Eo. symmetry in Eo.
    apply finish_effect in Eo as (_ & _ & _ & _ & _ & _ & _ & Hres).
    destruct (Hres _ eq_refl) as (Hf & _). discriminate.
  - intros p pr im ims Hin Hpr Him.
    destruct (generate_after_dispatch frame true st p Hin)
      as (s1 & init & mi & s2 & Es & Ei & Em & Hp & G & Eg).
    assert (Et : st_trace (snd (generate' frame true st))
                 = (st_trace s2 ++ [EvDispatch p])%list).
    { apply generate_dispatched in Hin
        as (s1' & init' & mi' & s2' & Es' & Ei' & _ & _ & Et).
      rewrite Es in Es'. injection Es' as <-.
      rewrite Ei in Ei'. now injection Ei' as <- <- <-. }
    rewrite Et in Hpr. rewrite Hpr in Eg. rewrite Eg.
    pose proof (finish_outcome true pr (submitted init None s2)) as Ho.
    cbv zeta in Ho. rewrite Him in Ho. destruct Ho as (Er & Ef).
    destruct ((record_first pr;; results true pr) (submitted init None s2))
      as [r st'] eqn:Efin.
    pose proof (finish_effect _ _ _ _ _ Efin) as (_ & _ & _ & _ & Einfo & _).
    cbn [fst snd] in *. split; [exact Er|]. split.
    + rewrite Einfo.
      destruct (Root.initial_info (st_root (submitted init None s2)));
        discriminate.
    + rewrite Ef.
      destruct (Root.first_frame (st_root (submitted init None s2)));
        discriminate.
Qed.

(** X11.  An engine answer without images makes a call that does not ask
    for a sample raise [IndexError], at line 184 or at line 193.  By then
    lines 179-181 have run: an empty info is filled in from that answer,
    while the first frame stays as it was. *)
Theorem empty_answer_half_recorded (frame : Z) st p pr :
  let out := generate' frame false st in
  In (EvDispatch p) (new_events st (snd out)) ->
  process_images (st_trace (snd out)) p = inr pr ->
  Processed.images pr = [] ->
  fst out = inl (IndexError "list index out of range")
  /\ Root.first_frame (st_root (snd out)) = Root.first_frame (st_root st)
  /\ Root.initial_info (st_root (snd out))
     = match Root.initial_info (st_root st) with
       | Some x => Some x
       | None => Some (Processed.info pr)
       end.
Proof.
  cbv zeta. intros Hin Hpr Him.
  destruct (generate_after_dispatch frame false st p Hin)
    as (s1 & init & mi & s2 & Es & Ei & Em & Hp & G & Eg).
  assert (Et : st_trace (snd (generate' frame false st))
               = (st_trace s2 ++ [EvDispatch p])%list).
  { apply generate_dispatched in Hin
      as (s1' & init' & mi' & s2' & Es' & Ei' & _ & _ & Et).
    rewrite Es in Es'. injection Es' as <-.
    rewrite Ei in Ei'. now injection Ei' as <- <- <-. }
  rewrite Et in Hpr. rewrite Hpr in Eg. rewrite Eg.
  pose proof (finish_outcome false pr (submitted init None s2)) as Ho.
  cbv zeta in Ho. rewrite Him in Ho. destruct Ho as (Er & Ef).
  rewrite orb_true_r in Er.
  destruct ((record_first pr;; results false pr) (submitted init None s2))
    as [r st'] eqn:Efin.
  pose proof (finish_effect _ _ _ _ _ Efin) as (_ & _ & _ & _ & Einfo & _).
  pose proof (resolve_init_effect open_file http_get s1) as (Er1 & _).
  rewrite Ei in Er1. cbn in Er1.
  apply setup_ok in Es as (_ & _ & _ & (_ & Fi & Ff) & _).
  cbn [fst snd submitted st_root Root.first_frame Root.initial_info
       Root.set_p] in *.
  rewrite Er1 in Ef, Einfo. rewrite Fi in Einfo. rewrite Ff in Ef.
  now repeat split.
Qed.

(** X12.  Every dispatched request has its scalar attributes from
    [args]: batch size, width, height, steps, seed, sampler index, mask
    blur and guidance scale as given, the two save switches negated.
    [n_iter] is always 1, and both output paths, the one for grids
    included, are [root.outpath_samples]. *)
Theorem request_scalars_from_args (frame : Z) (return_sample : bool) st p :
  In (EvDispatch p)
     (new_events st (snd (generate' frame return_sample st))) ->
  let args := st_args st in
  P.batch_size p = Args.n_samples args
  /\ P.width p = Args.W args /\ P.height p = Args.H args
  /\ P.steps p = Args.steps args /\ P.seed p = Args.seed args
  /\ P.do_not_save_samples p = negb (Args.save_samples args)
  /\ P.do_not_save_grid p = negb (Args.make_grid args)
  /\ P.sampler_index p = Args.sampler args
  /\ P.mask_blur p = Args.mask_overlay_blur args
  /\ P.n_iter p = 1%Z
  /\ P.cfg_scale p = Args.scale args
  /\ P.outpath_samples p = Root.outpath_samples (st_root st)
  /\ P.outpath_grids p = Root.outpath_samples (st_root st).
Proof.
  intros Hin.
  apply generate_dispatched in Hin
    as (s1 & init & mi & s2 & Es & Ei & _ & -> & _).
  pose proof (resolve_init_effect open_file http_get s1) as (Er & _).
  rewrite Ei in Er. cbn in Er.
  apply setup_request in Es. cbv zeta in Es.
  unfold request. cbn. rewrite Er.
  repeat (destruct Es as (? & Es)); repeat split; assumption.
Qed.

Lemma dict_get_set_same {V : Type} (k : string) (v : V) d :
  dict_get k (dict_set k v d) = Some v.
Proof.
  induction d as [|[k' v'] d IH]; cbn.
  - now rewrite String.eqb_refl.
  - destruct (String.eqb k k') eqn:E; cbn; [now rewrite String.eqb_refl|].
    now rewrite E.
Qed.

Lemma dict_get_set_other {V : Type} (k k0 : string) (v : V) d :
  k0 <> k -> dict_get k0 (dict_set k v d) = dict_get k0 d.
Proof.
  intros Hne. induction d as [|[k' v'] d IH]; cbn.
  - destruct (String.eqb_spec k0 k); [contradiction | reflexivity].
  - destruct (String.eqb_spec k k') as [->|Hk]; cbn.
    + destruct (String.eqb_spec k0 k'); [contradiction | reflexivity].
    + now rewrite IH.
Qed.

Lemma dict_set_length {V : Type} (k : string) (v : V) d :
  List.length (dict_set k v d)
  = match dict_get k d with
    | Some _ => List.length d
    | None => S (List.length d)
    end.
Proof.
  induction d as [|[k' v'] d IH]; cbn; [reflexivity|].
  destruct (String.eqb k k'); cbn; [reflexivity|].
  rewrite IH. now destruct (dict_get k d).
Qed.

(** X13.  In every dispatched request the extra generation parameters
    give the mask blur of [args] under the key "Mask blur" and, under every
    other key, what [root.p] held before the call.  An existing "Mask blur"
    entry is replaced, not doubled: the number of entries grows by one only
    when the key was absent. *)
Theorem mask_blur_parameter (frame : Z) (return_sample : bool) st p :
  In (EvDispatch p)
     (new_events st (snd (generate' frame return_sample st))) ->
  let before := P.extra_generation_params (Root.p (st_root st)) in
  let after := P.extra_generation_params p in
  dict_get "Mask blur" after = Some (Args.mask_overlay_blur (st_args st))
  /\ (forall k, k <> "Mask blur" -> dict_get k after = dict_get k before)
  /\ List.length after
     = match dict_get "Mask blur" before with
       | Some _ => List.length before
       | None => S (List.length before)
       end.
Proof.
  intros Hin.
  apply generate_dispatched in Hin
    as (s1 & init & mi & s2 & Es & Ei & _ & -> & _).
  pose proof (resolve_init_effect open_file http_get s1) as (Er & _).
  rewrite Ei in Er. cbn in Er.
  apply setup_request in Es. cbv zeta in Es.
  assert (E : P.extra_generation_params (request init None s2)
              = dict_set "Mask blur" (Args.mask_overlay_blur (st_args st))
                  (P.extra_generation_params (Root.p (st_root st)))).
  { unfold request. cbn. rewrite Er.
    repeat (destruct Es as (? & Es)). exact Es. }
  cbv zeta. rewrite E. split; [apply dict_get_set_same|]. split.
  - intros k Hk. now apply dict_get_set_other.
  - apply dict_set_length.
Qed.

(** X14.  A request is dispatched only when [use_mask] is off, and it then
    carries no mask: whatever mask [root.p] held from an earlier use is
    replaced by [None]. *)
Theorem dispatched_without_mask (frame : Z) (return_sample : bool) st p :
  In (EvDispatch p)
     (new_events st (snd (generate' frame return_sample st))) ->
  Args.use_mask (st_args st) = false /\ P.mask p = None.
Proof.
  intros Hin.
  apply generate_dispatched in Hin
    as (s1 & init & mi & s2 & Es & Ei & Em & -> & _).
  destruct (flags_kept _ _ _ _ _ _ _ _ _ _ Es Ei) as (Fm & _).
  split; [congruence | reflexivity].
Qed.

(** ** The notice of lines 132-133 over several calls *)

Lemma prep_silent e : is_prep e = true -> negb (is_print e) = true.
Proof. now destruct e. Qed.

Lemma source_silent e : is_source e = true -> negb (is_print e) = true.
Proof. now destruct e. Qed.

Lemma silent_without_policy (frame : Z) (return_sample : bool) st :
  policy_applies (st_args st) = false ->
  forallb (fun e => negb (is_print e))
          (new_events st (snd (generate' frame return_sample st))) = true.
Proof.
  intros Hp. apply grows_new_events.
  assert (Setup : forall r s1, setup' frame st = (r, s1) ->
            grows (fun e => negb (is_print e)) st s1).
  { intros [e|[]] s1 Es.
    - apply setup_err in Es as (_ & _ & _ & _ & G).
      eapply grows_weaken; [|exact G]. apply prep_silent.
    - apply setup_ok in Es as (_ & _ & _ & _ & _ & evs & Et & F).
      rewrite Hp, app_nil_r in Et. exists evs. split; [exact Et|].
      rewrite forallb_forall in *. auto using prep_silent. }
  assert (Init : forall s1 r s2, resolve_init' s1 = (r, s2) ->
            grows (fun e => negb (is_print e)) s1 s2).
  { intros s1 r s2 Ei.
    pose proof (resolve_init_effect open_file http_get s1) as (_ & G & _).
    rewrite Ei in G. cbn in G.
    eapply grows_weaken; [|exact G]. apply source_silent. }
  destruct (generate_cases weight parse_weight str open_file http_get
              process_images frame return_sample st)
    as [(e & s1 & Es & Eo)|(s1 & Es & [(e & s2 & Ei & Eo)|
         (init & mi & s2 & Ei & [(Em & e & Ek & Eo)|(Em & Eo)])])].
  - rewrite Eo. cbn. eauto.
  - rewrite Eo. cbn. eapply grows_trans; eauto.
  - rewrite Eo. cbn. eapply grows_trans; eauto.
  - assert (G : grows (fun e => negb (is_print e)) st
                  (submitted init None s2)).
    { eapply grows_trans; [eapply grows_trans; eauto|].
      now exists [EvDispatch (request init None s2)]. }
    destruct (process_images _ _) as [d|pr]; rewrite Eo; [exact G|].
    destruct ((record_first pr;; results return_sample pr)
                (submitted init None s2)) as [r st'] eqn:Ef.
    apply finish_effect in Ef as (_ & Et & _). cbn.
    eapply grows_trans; [exact G|]. now apply grows_same_trace.
Qed.

(** X15.  Once a call has passed the prompt phase, the condition of line
    131 is false on [args] as the call leaves it, however the call ends
    afterwards: when the condition held, [args.strength] is now zero.  A
    further call on the same [args] therefore prints nothing, so the notice
    appears at most once for an [args] object that is reused. *)
Theorem notice_not_repeated (frame : Z) (return_sample : bool) st s1
    (frame2 : Z) (return_sample2 : bool) :
  setup' frame st = (inr tt, s1) ->
  let st' := snd (generate' frame return_sample st) in
  policy_applies (st_args st') = false
  /\ (policy_applies (st_args st) = true ->
      Args.strength (st_args st') = 0%float)
  /\ forallb (fun e => negb (is_print e))
             (new_events st' (snd (generate' frame2 return_sample2 st')))
     = true.
Proof.
  intros Es. cbv zeta.
  assert (Hargs : exists x,
    st_args (snd (generate' frame return_sample st))
    = Args.set_init_sample x
        (if policy_applies (st_args st)
         then Args.set_strength 0%float (st_args st) else st_args st)).
  { assert (After : forall r s2, resolve_init' s1 = (r, s2) ->
      exists x, st_args s2
                = Args.set_init_sample x
                    (if policy_applies (st_args st)
                     then Args.set_strength 0%float (st_args st)
                     else st_args st)).
    { intros r s2 Ei. pose proof (setup_ok _ _ _ _ _ _ Es) as (_ & Ea & _).
      pose proof (resolve_init_args s1) as ([E|(t & arr & _ & E)] & _);
        rewrite Ei in E; cbn in E; rewrite E, Ea.
      - exists (Args.init_sample
                  (if policy_applies (st_args st)
                   then Args.set_strength 0%float (st_args st)
                   else st_args st)).
        now destruct (policy_applies (st_args st)), (st_args st).
      - eexists. reflexivity. }
    destruct (generate_cases weight parse_weight str open_file http_get
                process_images frame return_sample st)
      as [(e & s1' & Es' & Eo)|(s1' & Es' & [(e & s2 & Ei & Eo)|
           (init & mi & s2 & Ei & [(Em & e & Ek & Eo)|(Em & Eo)])])];
      rewrite Es in Es'; try discriminate; injection Es' as <-.
    - rewrite Eo. cbn. eauto.
    - rewrite Eo. cbn. eauto.
    - destruct (After _ _ Ei) as (x & Hx). exists x.
      destruct (process_images _ _) as [d|pr]; rewrite Eo; [exact Hx|].
      destruct ((record_first pr;; results return_sample pr)
                  (submitted init None s2)) as [r st'] eqn:Ef.
      apply finish_effect in Ef as (Ea & _). cbn. now rewrite Ea. }
  destruct Hargs as (x & Hx).
  assert (Hoff : policy_applies
                   (st_args (snd (generate' frame return_sample st)))
                 = false).
  { rewrite Hx. destruct (policy_applies (st_args st)) eqn:Hp.
    - unfold policy_applies. cbn.
      now destruct (negb (Args.use_init (st_args st))).
    - unfold policy_applies in *. exact Hp. }
  split; [exact Hoff|]. split.
  - intros Hp. now rewrite Hx, Hp.
  - now apply silent_without_policy.
Qed.

(** ** A carried-over sample (lines 139-142) *)


(** ** The output directory (line 108) *)






End Further.

(** ** The properties above on concrete runs *)

Module FurtherRuns.
Import Example Cases.

Ltac find_event :=
  repeat (try (left; reflexivity); right).


Lemma mask_input_rejected_witness :
  prepare_mask disk web (VInt 7) (VTuple [1; 4; 64; 64]%Z)
               2%float 1%float true (world masked)
  = (inl (Exception "mask_input must be a PIL image or a file name"),
     world masked).
Proof.
  apply (mask_input_rejected disk web (VInt 7) (VTuple [1; 4; 64; 64]%Z)
           2%float 1%float true (world masked)); discriminate.
Defined.

Lemma mask_shape_too_short_witness :
  load_mask_latent disk web (VImage a_mask) (VTuple [64]%Z) (world masked)
  = (inl (IndexError "tuple index out of range"), world masked).
Proof.
  apply (mask_shape_too_short disk web [64]%Z (world masked)). cbn. lia.
Defined.

Lemma split_prompt_outcome_witness :
  (exists a b c,
     "x --neg y --neg z" = a ++ "--neg" ++ b ++ "--neg" ++ c)
  /\ split_prompt "x --neg y --neg z" (world two_markers)
     = (inl (ValueError "too many values to unpack (expected 2)"),
        world two_markers)
  /\ ~ (exists a b c, "x --neg y" = a ++ "--neg" ++ b ++ "--neg" ++ c)
  /\ exists pos neg,
       split_prompt "x --neg y" (world two_markers)
       = set_p (P.set_prompts pos neg) (world two_markers).
Proof.
  assert (H1 : exists a b c,
            "x --neg y --neg z" = a ++ "--neg" ++ b ++ "--neg" ++ c)
    by (exists "x ", " y ", " z"; reflexivity).
  assert (H2 : ~ (exists a b c,
                    "x --neg y" = a ++ "--neg" ++ b ++ "--neg" ++ c)).
  { intros H.
    apply (proj1 (split_prompt_outcome "x --neg y" (world two_markers)))
      in H.
    vm_compute in H. discriminate H. }
  split; [exact H1|]. split.
  - exact (proj2 (proj1 (split_prompt_outcome "x --neg y --neg z"
                           (world two_markers))) H1).
  - split; [exact H2|].
    destruct (proj2 (split_prompt_outcome "x --neg y" (world two_markers))
                H2) as (pos & neg & E & _).
    now exists pos, neg.
Defined.

Lemma evaluator_failure_aborts_witness :
  Args.prompt (st_args (world bad_math)) = Some "a `t` cat `oops` dog `t`"
  /\ fst (re_sub (math_repl Z evaluator show 3) "a `t` cat `oops` dog `t`"
                 (world bad_math))
     = inl (CollaboratorError "parse_weight" "invalid syntax")
  /\ fst (run 3 false (world bad_math))
     = inl (CollaboratorError "parse_weight" "invalid syntax")
  /\ st_root (snd (run 3 false (world bad_math))) = empty_root.
Proof.
  assert (E : re_sub (math_repl Z evaluator show 3)
                "a `t` cat `oops` dog `t`" (world bad_math)
              = (inl (CollaboratorError "parse_weight" "invalid syntax"),
                 snd (re_sub (math_repl Z evaluator show 3)
                        "a `t` cat `oops` dog `t`" (world bad_math))))
    by (vm_compute; reflexivity).
  split; [reflexivity|]. split; [now rewrite E|].
  destruct (evaluator_failure_aborts Z evaluator show disk web engine
              3 false _ (world bad_math) _ _ eq_refl E)
    as (Eg & Er & _).
  unfold run. rewrite Eg. split; [reflexivity|exact Er].
Defined.

Lemma sample_args_not_reusable_witness :
  let st' := snd (run 0 false (world carried)) in
  Args.init_sample (st_args (world carried)) <> None
  /\ (exists res, fst (run 0 false (world carried)) = inr res)
  /\ (exists arr, Args.init_sample (st_args st') = Some (Array arr))
  /\ (exists e, fst (run 1 false st') = inl e)
  /\ filter is_dispatch (new_events st' (snd (run 1 false st'))) = [].
Proof.
  cbv zeta.
  assert (H1 : Args.init_sample (st_args (world carried)) <> None)
    by discriminate.
  assert (E : exists res,
            run 0 false (world carried)
            = (inr res, snd (run 0 false (world carried)))).
  { eexists. vm_compute. reflexivity. }
  destruct E as (res & E).
  split; [exact H1|]. split; [exists res; now rewrite E|].
  destruct (sample_args_not_reusable Z evaluator show disk web engine
              0 false (world carried) res _ 1 false H1 E)
    as (Ha & He & _ & Hd).
  repeat split; assumption.
Defined.

Lemma one_request_per_call_witness :
  let out := run 0 false (world img2img) in
  (exists res, fst out = inr res)
  /\ filter is_dispatch (new_events (world img2img) (snd out))
     = [EvDispatch (Root.p (st_root (snd out)))].
Proof.
  cbv zeta.
  assert (E : exists res, fst (run 0 false (world img2img)) = inr res).
  { eexists. vm_compute. reflexivity. }
  split; [exact E|]. destruct E as (res & E).
  exact (proj1 (proj2 (one_request_per_call Z evaluator show disk web
                         engine 0 false (world img2img)) res E)).
Defined.

Lemma return_sample_never_returns_witness :
  let out := run 0 true (world img2img) in
  (exists p pr im ims,
     In (EvDispatch p) (new_events (world img2img) (snd out))
     /\ engine (st_trace (snd out)) p = inr pr
     /\ Processed.images pr = im :: ims)
  /\ fst out = inl (UnboundLocalError "image")
  /\ Root.first_frame (st_root (snd out)) <> None.
Proof.
  cbv zeta.
  assert (H : exists p pr im ims,
     In (EvDispatch p)
        (new_events (world img2img) (snd (run 0 true (world img2img))))
     /\ engine (st_trace (snd (run 0 true (world img2img)))) p = inr pr
     /\ Processed.images pr = im :: ims).
  { eexists _, _, _, _. split; [vm_compute; find_event|].
    split; vm_compute; reflexivity. }
  split; [exact H|]. destruct H as (p & pr & im & ims & Hin & Hp & Him).
  destruct (proj2 (return_sample_never_returns Z evaluator show disk web
                     engine 0 (world img2img)) p pr im ims Hin Hp Him)
    as (Hf & _ & Hfirst).
  split; assumption.
Defined.

Lemma empty_answer_half_recorded_witness :
  let out := generate Z evaluator show disk web barren 0 false
                      (world img2img) in
  (exists p pr,
     In (EvDispatch p) (new_events (world img2img) (snd out))
     /\ barren (st_trace (snd out)) p = inr pr
     /\ Processed.images pr = [])
  /\ fst out = inl (IndexError "list index out of range")
  /\ Root.first_frame (st_root (snd out)) = None
  /\ Root.initial_info (st_root (snd out)) = Some "Steps: 20".
Proof.
  cbv zeta.
  assert (H : exists p pr,
     In (EvDispatch p)
        (new_events (world img2img)
           (snd (generate Z evaluator show disk web barren 0 false
                          (world img2img))))
     /\ barren (st_trace (snd (generate Z evaluator show disk web barren
                                        0 false (world img2img)))) p
        = inr pr
     /\ Processed.images pr = []).
  { eexists _, _. split; [vm_compute; find_event|].
    split; vm_compute; reflexivity. }
  split; [exact H|]. destruct H as (p & pr & Hin & Hp & Him).
  destruct (empty_answer_half_recorded Z evaluator show disk web barren
              0 (world img2img) p pr Hin Hp Him) as (Hf & Hfirst & Hinfo).
  split; [exact Hf|]. split; [exact Hfirst|].
  rewrite Hinfo. vm_compute in Hp. injection Hp as <-. reflexivity.
Defined.

Lemma request_scalars_from_args_witness :
  exists p,
    In (EvDispatch p) (new_events reused (snd (run 0 false reused)))
    /\ P.batch_size p = 1%Z /\ P.width p = 512 /\ P.height p = 512
    /\ P.n_iter p = 1%Z /\ P.outpath_grids p = "outputs".
Proof.
  eexists. split; [vm_compute; find_event|].
  destruct (request_scalars_from_args Z evaluator show disk web engine
              0 false reused _ ltac:(vm_compute; find_event))
    as (H1 & H2 & H3 & _ & _ & _ & _ & _ & _ & H10 & _ & _ & H13).
  repeat split; assumption.
Defined.

Lemma mask_blur_parameter_witness :
  exists p,
    In (EvDispatch p) (new_events reused (snd (run 0 false reused)))
    /\ dict_get "Mask blur" (P.extra_generation_params p) = Some 5%float
    /\ dict_get "Eta" (P.extra_generation_params p) = Some 0.5%float
    /\ List.length (P.extra_generation_params p) = 2.
Proof.
  eexists. split; [vm_compute; find_event|].
  destruct (mask_blur_parameter Z evaluator show disk web engine
              0 false reused _ ltac:(vm_compute; find_event))
    as (H1 & H2 & H3).
  split; [exact H1|]. split; [|exact H3].
  rewrite H2; [reflexivity|discriminate].
Defined.

Lemma dispatched_without_mask_witness :
  P.mask (Root.p (st_root reused)) = Some a_mask
  /\ exists p,
       In (EvDispatch p) (new_events reused (snd (run 0 false reused)))
       /\ P.mask p = None.
Proof.
  split; [reflexivity|].
  eexists. split; [vm_compute; find_event|].
  apply (dispatched_without_mask Z evaluator show disk web engine
           0 false reused).
  vm_compute; find_event.
Defined.

Lemma notice_not_repeated_witness :
  let st' := snd (run 0 false (world txt2img)) in
  fst (setup Z evaluator show 0 (world txt2img)) = inr tt
  /\ policy_applies (st_args (world txt2img)) = true
  /\ Args.strength (st_args st') = 0%float
  /\ forallb (fun e => negb (is_print e))
             (new_events st' (snd (run 1 false st'))) = true.
Proof.
  cbv zeta.
  assert (E : setup Z evaluator show 0 (world txt2img)
              = (inr tt, snd (setup Z evaluator show 0 (world txt2img))))
    by (vm_compute; reflexivity).
  assert (Hp : policy_applies (st_args (world txt2img)) = true)
    by reflexivity.
  split; [now rewrite E|]. split; [exact Hp|].
  destruct (notice_not_repeated Z evaluator show disk web engine
              0 false (world txt2img) _ 1 false E) as (_ & Hs & Hq).
  split; [exact (Hs Hp)|exact Hq].
Defined.


End FurtherRuns.
